(** * pyicloud photo service: pagination, reconciliation and version resolution

    A shallow embedding of [pyicloud/services/photos.py] (classes
    [PhotoAlbum] and [PhotoAsset]) together with the properties of the
    natural-language specification that concern it.

    Conventions of the embedding.
    - Python text ([str]) is represented by its UTF-8 encoding, a Rocq
      [string]; bytes objects are [string]s as well.  Searching for an ASCII
      needle, ASCII lower-casing and suffix tests commute with that encoding.
    - Decoded JSON is the type [json]; JSON [null] and Python [None] are both
      [JNull]; numbers are integers.
    - A raw record is typed at its top level the way the service returns it
      (recordType, recordName, recordChangeTag are text, [fields] is a
      dictionary); the content of [fields] is dynamic JSON and is accessed
      with Python's subscript, membership and truthiness rules.
    - Python exceptions are values of [exn]; fallible code returns
      [result]. *)

From Stdlib Require Import ZArith Ascii String DecimalString List Bool Lia.
From stdpp Require Import base option gmap strings list fin_maps.

Set Warnings "-register-all".
Local Open Scope string_scope.

(** ** Exceptions and fallible computations *)

Inductive exn : Type :=
| KeyError (key : string)
| TypeError
| AttributeError
| ValueError
| OverflowError
| SessionError (code : nat).

Inductive result (A : Type) : Type :=
| Ok (a : A)
| Raise (e : exn).
Arguments Ok {A} a.
Arguments Raise {A} e.

#[global] Instance result_ret : MRet result := fun A a => Ok a.
#[global] Instance result_bind : MBind result := fun A B f m =>
  match m with
  | Ok a => f a
  | Raise e => Raise e
  end.
#[global] Instance result_fmap : FMap result := fun A B f m =>
  match m with
  | Ok a => Ok (f a)
  | Raise e => Raise e
  end.

(** ** Text *)

Module Text.

(** [s.startswith(p)] *)
Fixpoint is_prefix (p s : string) : bool :=
  match p, s with
  | EmptyString, _ => true
  | String a p', String b s' => Ascii.eqb a b && is_prefix p' s'
  | String _ _, EmptyString => false
  end.

(** [needle in s], equivalently [s.find(needle) > -1]. *)
Fixpoint contains (needle s : string) : bool :=
  match s with
  | EmptyString => is_prefix needle EmptyString
  | String _ s' => is_prefix needle s || contains needle s'
  end.

Fixpoint endswith (s suffix : string) : bool :=
  String.eqb s suffix ||
  match s with
  | EmptyString => false
  | String _ s' => endswith s' suffix
  end.

Definition in_range (lo hi : N) (c : ascii) : bool :=
  ((lo <=? N_of_ascii c) && (N_of_ascii c <=? hi))%N.

Definition is_digit (c : ascii) : bool := in_range 48 57 c.
Definition is_upper (c : ascii) : bool := in_range 65 90 c.
Definition is_lower (c : ascii) : bool := in_range 97 122 c.
Definition is_alnum (c : ascii) : bool := is_digit c || is_upper c || is_lower c.

Definition lower_char (c : ascii) : ascii :=
  if is_upper c then ascii_of_N (N_of_ascii c + 32) else c.

(** [s.lower()], on the ASCII letters. *)
Fixpoint lower (s : string) : string :=
  match s with
  | EmptyString => EmptyString
  | String c s' => String (lower_char c) (lower s')
  end.

Fixpoint take (n : nat) (s : string) : string :=
  match n, s with
  | S n', String c s' => String c (take n' s')
  | _, _ => EmptyString
  end.

Definition is_dot (c : ascii) : bool := Ascii.eqb c ".".

Fixpoint has_dot (s : string) : bool :=
  match s with
  | EmptyString => false
  | String c s' => is_dot c || has_dot s'
  end.

Definition nonempty (s : string) : bool :=
  match s with EmptyString => false | String _ _ => true end.

(** [re.sub('\.[^.]+$', repl, s)]: the match must reach the end of [s], so
    it starts at the last dot, and only if at least one character follows. *)
Fixpoint sub_extension (repl s : string) : string :=
  match s with
  | EmptyString => EmptyString
  | String c s' =>
      if is_dot c && nonempty s' && negb (has_dot s') then repl
      else String c (sub_extension repl s')
  end.

(** [re.sub('[^0-9a-zA-Z]', '_', s)].  One replacement per character: a
    byte that continues a UTF-8 sequence belongs to the character its lead
    byte started. *)
Fixpoint sub_non_alnum (s : string) : string :=
  match s with
  | EmptyString => EmptyString
  | String c s' =>
      if is_alnum c then String c (sub_non_alnum s')
      else if in_range 128 191 c then sub_non_alnum s'
      else String "_" (sub_non_alnum s')
  end.

Fixpoint all_chars (P : ascii -> bool) (s : string) : bool :=
  match s with
  | EmptyString => true
  | String c s' => P c && all_chars P s'
  end.

Definition is_ascii (s : string) : bool := all_chars (in_range 0 127) s.

Definition cont (c : ascii) : bool := in_range 128 191 c.

(** Well-formed UTF-8 byte sequences (Unicode, table 3-7). *)
Fixpoint utf8_valid (s : string) : bool :=
  match s with
  | EmptyString => true
  | String c0 r0 =>
    if in_range 0 127 c0 then utf8_valid r0 else
    match r0 with
    | EmptyString => false
    | String c1 r1 =>
      if in_range 194 223 c0 then cont c1 && utf8_valid r1 else
      match r1 with
      | EmptyString => false
      | String c2 r2 =>
        if (in_range 224 224 c0 && in_range 160 191 c1)
           || (in_range 225 236 c0 && cont c1)
           || (in_range 237 237 c0 && in_range 128 159 c1)
           || (in_range 238 239 c0 && cont c1)
        then cont c2 && utf8_valid r2 else
        match r2 with
        | EmptyString => false
        | String c3 r3 =>
          if (in_range 240 240 c0 && in_range 144 191 c1)
             || (in_range 241 243 c0 && cont c1)
             || (in_range 244 244 c0 && in_range 128 143 c1)
          then cont c2 && cont c3 && utf8_valid r3
          else false
        end
      end
    end
  end.

(** [bytes.decode('utf-8')]. *)
Definition decode_utf8 (bytes : string) : result string :=
  if utf8_valid bytes then Ok bytes else Raise ValueError.

End Text.

(** ** Base64, as [base64.b64encode] and [base64.b64decode] of the Python
    standard library ([binascii.a2b_base64] in its default, lenient mode) *)

Module Base64.

(** Six bits, most significant first. *)
Inductive sextet : Type := Sextet (b5 b4 b3 b2 b1 b0 : bool).

Definition alphabet : string :=
  "ABCDEFGHIJKLMNOPQRSTUVWXYZabcdefghijklmnopqrstuvwxyz0123456789+/".

Definition pad : ascii := "="%char.

Definition bit (b : bool) (w : nat) : nat := if b then w else 0.

Definition sextet_value (x : sextet) : nat :=
  let 'Sextet b5 b4 b3 b2 b1 b0 := x in
  bit b5 32 + bit b4 16 + bit b3 8 + bit b2 4 + bit b1 2 + bit b0 1.

Definition sextet_of_value (n : nat) : sextet :=
  Sextet (Nat.testbit n 5) (Nat.testbit n 4) (Nat.testbit n 3)
         (Nat.testbit n 2) (Nat.testbit n 1) (Nat.testbit n 0).

Definition char_of_sextet (x : sextet) : ascii :=
  match String.get (sextet_value x) alphabet with
  | Some c => c
  | None => pad
  end.

Fixpoint index_of (c : ascii) (s : string) : option nat :=
  match s with
  | EmptyString => None
  | String d s' => if Ascii.eqb c d then Some 0 else S <$> index_of c s'
  end.

(** [table_a2b_base64]: the value of an alphabet character, nothing for any
    other byte. *)
Definition sextet_of_char (c : ascii) : option sextet :=
  sextet_of_value <$> index_of c alphabet.

(** Three bytes are four sextets.  [Ascii] lists the least significant bit
    first. *)
Definition first_sextet (a : ascii) : sextet :=
  let 'Ascii a0 a1 a2 a3 a4 a5 a6 a7 := a in Sextet a7 a6 a5 a4 a3 a2.

Definition second_sextet (a b : ascii) : sextet :=
  let 'Ascii a0 a1 _ _ _ _ _ _ := a in
  let 'Ascii _ _ _ _ b4 b5 b6 b7 := b in Sextet a1 a0 b7 b6 b5 b4.

Definition third_sextet (b c : ascii) : sextet :=
  let 'Ascii b0 b1 b2 b3 _ _ _ _ := b in
  let 'Ascii _ _ _ _ _ _ c6 c7 := c in Sextet b3 b2 b1 b0 c7 c6.

Definition fourth_sextet (c : ascii) : sextet :=
  let 'Ascii c0 c1 c2 c3 c4 c5 _ _ := c in Sextet c5 c4 c3 c2 c1 c0.

Definition zero : ascii := Ascii.zero.

(** [base64.b64encode(bytes)], the encoding that [filename] undoes: three
    bytes give four characters, the last group is padded with "=". *)
Fixpoint b64encode (bytes : string) : string :=
  match bytes with
  | EmptyString => EmptyString
  | String a EmptyString =>
      String (char_of_sextet (first_sextet a))
        (String (char_of_sextet (second_sextet a zero))
          (String pad (String pad EmptyString)))
  | String a (String b EmptyString) =>
      String (char_of_sextet (first_sextet a))
        (String (char_of_sextet (second_sextet a b))
          (String (char_of_sextet (third_sextet b zero))
            (String pad EmptyString)))
  | String a (String b (String c rest)) =>
      String (char_of_sextet (first_sextet a))
        (String (char_of_sextet (second_sextet a b))
          (String (char_of_sextet (third_sextet b c))
            (String (char_of_sextet (fourth_sextet c)) (b64encode rest))))
  end.

(** The decoder's position in the current group of four characters, with the
    sextet whose low bits are still to be written ([leftchar]). *)
Inductive quad : Type :=
| Q0
| Q1 (left : sextet)
| Q2 (left : sextet)
| Q3 (left : sextet).

Definition quad_pos (q : quad) : nat :=
  match q with Q0 => 0 | Q1 _ => 1 | Q2 _ => 2 | Q3 _ => 3 end.

(** [(leftchar << 2) | (this_ch >> 4)] *)
Definition byte1 (l x : sextet) : ascii :=
  let 'Sextet l5 l4 l3 l2 l1 l0 := l in
  let 'Sextet x5 x4 _ _ _ _ := x in Ascii x4 x5 l0 l1 l2 l3 l4 l5.

(** [(leftchar << 4) | (this_ch >> 2)], [leftchar] being the low four bits
    of the second sextet. *)
Definition byte2 (l x : sextet) : ascii :=
  let 'Sextet _ _ l3 l2 l1 l0 := l in
  let 'Sextet x5 x4 x3 x2 _ _ := x in Ascii x2 x3 x4 x5 l0 l1 l2 l3.

(** [(leftchar << 6) | this_ch], [leftchar] being the low two bits of the
    third sextet. *)
Definition byte3 (l x : sextet) : ascii :=
  let 'Sextet _ _ _ _ l1 l0 := l in
  let 'Sextet x5 x4 x3 x2 x1 x0 := x in Ascii x0 x1 x2 x3 x4 x5 l0 l1.

(** [binascii.a2b_base64(data)], not strict: bytes outside the alphabet are
    skipped, a complete pad sequence ends the input, and data that stops
    inside a group is an error ([binascii.Error], a [ValueError]). *)
Fixpoint a2b_base64 (q : quad) (pads : nat) (data : string) : result string :=
  match data with
  | EmptyString =>
      match q with
      | Q0 => Ok EmptyString
      | _ => Raise ValueError
      end
  | String this_ch data' =>
      if Ascii.eqb this_ch pad then
        if (2 <=? quad_pos q)%nat then
          if (4 <=? quad_pos q + S pads)%nat then Ok EmptyString
          else a2b_base64 q (S pads) data'
        else a2b_base64 q pads data'
      else
        match sextet_of_char this_ch with
        | None => a2b_base64 q pads data'
        | Some x =>
            match q with
            | Q0 => a2b_base64 (Q1 x) 0 data'
            | Q1 l => String (byte1 l x) <$> a2b_base64 (Q2 x) 0 data'
            | Q2 l => String (byte2 l x) <$> a2b_base64 (Q3 x) 0 data'
            | Q3 l => String (byte3 l x) <$> a2b_base64 Q0 0 data'
            end
        end
  end.

(** [base64.b64decode(s)] for a [str] argument: the text must be ASCII. *)
Definition b64decode (s : string) : result string :=
  if Text.is_ascii s then a2b_base64 Q0 0 s else Raise ValueError.

End Base64.

(** ** Decoded JSON and the Python operations the service applies to it *)

Inductive json : Type :=
| JNull
| JBool (b : bool)
| JNum (n : Z)
| JStr (s : string)
| JArr (xs : list json)
| JObj (m : gmap string json).

Module Py.

Definition is_str (s : string) (x : json) : bool :=
  match x with
  | JStr t => String.eqb t s
  | _ => false
  end.

(** [x[key]] for a text [key]: only a dictionary can be indexed by text. *)
Definition subscript (x : json) (key : string) : result json :=
  match x with
  | JObj m =>
      match m !! key with
      | Some v => Ok v
      | None => Raise (KeyError key)
      end
  | _ => Raise TypeError
  end.

(** [key in x] for a text [key]. *)
Definition contains (key : string) (x : json) : result bool :=
  match x with
  | JObj m =>
      match m !! key with
      | Some _ => Ok true
      | None => Ok false
      end
  | JStr s => Ok (Text.contains key s)
  | JArr xs => Ok (existsb (is_str key) xs)
  | _ => Raise TypeError
  end.

(** Truth value of [x], as tested by [if x:]. *)
Definition truthy (x : json) : bool :=
  match x with
  | JNull => false
  | JBool b => b
  | JNum n => negb (n =? 0)%Z
  | JStr s => Text.nonempty s
  | JArr xs => match xs with [] => false | _ => true end
  | JObj m => negb (size m =? 0)%nat
  end.

(** [fields[key]] on the dictionary of fields. *)
Definition item (fields : gmap string json) (key : string) : result json :=
  match fields !! key with
  | Some v => Ok v
  | None => Raise (KeyError key)
  end.

(** [key in table] followed by [table[key]] for a dictionary with text
    keys: a list or a dictionary cannot be hashed, any other value that is
    not text is absent. *)
Definition table_get (table : list (string * string)) (key : json)
  : result (option string) :=
  match key with
  | JStr s => Ok (snd <$> List.find (fun kv => String.eqb (fst kv) s) table)
  | JArr _ | JObj _ => Raise TypeError
  | _ => Ok None
  end.

End Py.

(** ** Records, entities and albums *)

Record raw_record : Type := {
  recordType : string;
  recordName : string;
  recordChangeTag : string;
  fields : gmap string json
}.

(** One rendition, the dictionary built by [PhotoAsset.versions]. *)
Record version : Type := {
  v_filename : string;
  v_width : json;
  v_height : json;
  v_size : json;
  v_url : json;
  v_type : json
}.

Inductive http_response : Type := HttpResponse (status : nat) (content : string).

(** The part of the service an entity uses: [session.get]. *)
Record PhotosService : Type := {
  session_get : json -> result http_response
}.

Record PhotoAsset : Type := {
  _service : PhotosService;
  _master_record : raw_record;
  _asset_record : raw_record;
  _versions : option (gmap string version)
}.

(** [PhotoAsset.__init__] *)
Definition PhotoAsset_init (service : PhotosService)
    (master_record asset_record : raw_record) : PhotoAsset :=
  {| _service := service;
     _master_record := master_record;
     _asset_record := asset_record;
     _versions := None |}.

Definition ITEM_TYPES : list (string * string) :=
  [ ("public.heic", "image");
    ("public.jpeg", "image");
    ("public.png", "image");
    ("com.compuserve.gif", "image");
    ("com.apple.quicktime-movie", "movie");
    ("public.mpeg-4", "movie");
    ("com.apple.m4v-video", "movie");
    ("com.microsoft.bmp", "image");
    ("com.adobe.raw-image", "image");
    ("public.3gpp", "movie");
    ("public.avi", "movie");
    ("public.mpeg", "movie") ].

Definition ITEM_TYPE_EXTENSIONS : list (string * string) :=
  [ ("public.heic", "HEIC");
    ("public.jpeg", "JPG");
    ("public.png", "PNG");
    ("com.apple.quicktime-movie", "MOV");
    ("public.mpeg-4", "MP4");
    ("com.apple.m4v-video", "M4V");
    ("com.microsoft.bmp", "BMP");
    ("public.3gpp", "3GP");
    ("public.avi", "AVI");
    ("public.mpeg", "MPG") ].

Definition PHOTO_VERSION_LOOKUP : list (string * string) :=
  [ ("original", "resOriginal");
    ("medium", "resJPEGMed");
    ("thumb", "resJPEGThumb");
    ("originalVideo", "resOriginalVidCompl");
    ("mediumVideo", "resVidMed");
    ("thumbVideo", "resVidSmall") ].

Definition VIDEO_VERSION_LOOKUP : list (string * string) :=
  [ ("original", "resOriginal");
    ("medium", "resVidMed");
    ("thumb", "resVidSmall") ].

Definition quicktime_movie : string := "com.apple.quicktime-movie".

(** ** [PhotoAsset] accessors *)

Definition master_fields (p : PhotoAsset) : gmap string json :=
  fields (_master_record p).

(** [PhotoAsset.id] *)
Definition id (p : PhotoAsset) : string := recordName (_master_record p).

(** [self._master_record['fields']['itemType']['value']] *)
Definition item_type_tag (p : PhotoAsset) : result json :=
  entry ← Py.item (master_fields p) "itemType";
  Py.subscript entry "value".

(** [PhotoAsset.item_type] *)
Definition item_type (p : PhotoAsset) : result string :=
  tag ← item_type_tag p;
  hit ← Py.table_get ITEM_TYPES tag;
  match hit with
  | Some kind => Ok kind
  | None => Ok "unknown"
  end.

(** [PhotoAsset.item_type_extension] *)
Definition item_type_extension (p : PhotoAsset) : result string :=
  tag ← item_type_tag p;
  hit ← Py.table_get ITEM_TYPE_EXTENSIONS tag;
  match hit with
  | Some ext => Ok ext
  | None => Ok "unknown"
  end.

(** The four literal extensions that [filename] searches for. *)
Definition has_plain_extension (s : string) : bool :=
  Text.contains ".png" s || Text.contains ".dng" s
  || Text.contains ".mp4" s || Text.contains ".gif" s.

(** The last two lines of [filename]: the identifier with every character
    outside [0-9a-zA-Z] replaced, cut to 12, joined to the extension. *)
Definition synthetic_filename (p : PhotoAsset) : result string :=
  let filename := Text.take 12 (Text.sub_non_alnum (id p)) in
  ext ← item_type_extension p;
  Ok (filename ++ "." ++ ext).

(** [PhotoAsset.filename] *)
Definition filename (p : PhotoAsset) : result string :=
  match master_fields p !! "filenameEnc" with
  | Some entry =>
      has_value ← Py.contains "value" entry;
      if has_value : bool then
        value ← Py.subscript entry "value";
        match value with
        | JStr s =>
            if Text.contains ".png" s then Ok s
            else if Text.contains ".dng" s then Ok s
            else if Text.contains ".mp4" s then Ok s
            else if Text.contains ".gif" s then Ok s
            else bytes ← Base64.b64decode s; Text.decode_utf8 bytes
        | _ => Raise AttributeError
        end
      else synthetic_filename p
  | None => synthetic_filename p
  end.

(** [entry["value"]] when the field is there and true, [None] otherwise
    (the width, height and type of a version). *)
Definition value_or_none (flds : gmap string json) (key : string) : result json :=
  match flds !! key with
  | Some entry =>
      if Py.truthy entry then Py.subscript entry "value" else Ok JNull
  | None => Ok JNull
  end.

(** The size and the url of a version, both read from the "...Res" field. *)
Definition size_and_url (flds : gmap string json) (key : string)
  : result (json * json) :=
  match flds !! key with
  | Some entry =>
      if Py.truthy entry then
        value ← Py.subscript entry "value";
        sz ← Py.subscript value "size";
        value' ← Py.subscript entry "value";
        url ← Py.subscript value' "downloadURL";
        Ok (sz, url)
      else Ok (JNull, JNull)
  | None => Ok (JNull, JNull)
  end.

(** The filename of a version: the live-photo movie of an image is renamed. *)
Definition version_filename (kind : string) (type : json) (filename : string)
  : string :=
  if String.eqb kind "image" && Py.is_str quicktime_movie type then
    if Text.endswith (Text.lower filename) ".heic"
    then Text.sub_extension "_HEVC.MOV" filename
    else Text.sub_extension ".MOV" filename
  else filename.

(** The body of the loop of [versions] for one included key. *)
Definition build_version (p : PhotoAsset) (prefix : string) : result version :=
  let flds := master_fields p in
  filename ← filename p;
  width ← value_or_none flds (prefix ++ "Width");
  height ← value_or_none flds (prefix ++ "Height");
  su ← size_and_url flds (prefix ++ "Res");
  type ← value_or_none flds (prefix ++ "FileType");
  kind ← item_type p;
  Ok {| v_filename := version_filename kind type filename;
        v_width := width;
        v_height := height;
        v_size := fst su;
        v_url := snd su;
        v_type := type |}.

Definition has_field (p : PhotoAsset) (key : string) : bool :=
  match master_fields p !! key with
  | Some _ => true
  | None => false
  end.

(** The loop of [versions] over the items of the lookup table.  The
    dictionary [self._versions] is filled in place: when a step raises, the
    entries written so far stay. *)
Fixpoint versions_fill (p : PhotoAsset) (table : list (string * string))
    (acc : gmap string version) : gmap string version * option exn :=
  match table with
  | [] => (acc, None)
  | (key, prefix) :: rest =>
      if has_field p (prefix ++ "Res") then
        match build_version p prefix with
        | Ok v => versions_fill p rest (<[key := v]> acc)
        | Raise e => (acc, Some e)
        end
      else versions_fill p rest acc
  end.

Definition set_versions (p : PhotoAsset) (vs : gmap string version) : PhotoAsset :=
  {| _service := _service p;
     _master_record := _master_record p;
     _asset_record := _asset_record p;
     _versions := Some vs |}.

(** The guard of [versions], [not self._versions]: true for [None] and for
    an empty dictionary. *)
Definition versions_unset (p : PhotoAsset) : bool :=
  match _versions p with
  | None => true
  | Some vs => (size vs =? 0)%nat
  end.

(** The block guarded by [if not self._versions]. *)
Definition versions_compute (p : PhotoAsset)
  : PhotoAsset * result (gmap string version) :=
  match item_type p with
  | Raise e => (set_versions p ∅, Raise e)
  | Ok kind =>
      let typed_version_lookup :=
        if String.eqb kind "movie" then VIDEO_VERSION_LOOKUP
        else PHOTO_VERSION_LOOKUP in
      match versions_fill p typed_version_lookup ∅ with
      | (vs, None) => (set_versions p vs, Ok vs)
      | (vs, Some e) => (set_versions p vs, Raise e)
      end
  end.

(** [PhotoAsset.versions]: the entity after the access, and the mapping. *)
Definition versions (p : PhotoAsset)
  : PhotoAsset * result (gmap string version) :=
  if versions_unset p then versions_compute p
  else
    match _versions p with
    | Some vs => (p, Ok vs)
    | None => versions_compute p
    end.

(** [PhotoAsset.download]: the entity afterwards, the urls passed to
    [session.get], and the value returned ([None] is Python's [None]). *)
Definition download (p : PhotoAsset) (version : string)
  : PhotoAsset * list json * result (option http_response) :=
  match versions p with
  | (p1, Raise e) => (p1, [], Raise e)
  | (p1, Ok vs) =>
      match vs !! version with
      | None => (p1, [], Ok None)
      | Some _ =>
          match versions p1 with
          | (p2, Raise e) => (p2, [], Raise e)
          | (p2, Ok vs') =>
              match vs' !! version with
              | None => (p2, [], Raise (KeyError version))
              | Some v =>
                  (p2, [v_url v], Some <$> session_get (_service p2) (v_url v))
              end
          end
      end
  end.

(** ** [PhotoAlbum] and its paginator *)

(** What the retry handler does with a failure and the attempt number:
    return ([None]) or raise. *)
Definition handler : Type := exn -> nat -> option exn.

Record PhotoAlbum : Type := {
  name : string;
  service : PhotosService;
  list_type : string;
  obj_type : string;
  direction : string;
  query_filter : option (list json);
  page_size : Z;
  exception_handler : option handler;
  _len : json  (* [None] is [JNull] *)
}.

(** [PhotoAlbum.__init__] *)
Definition PhotoAlbum_init (service : PhotosService)
    (name list_type obj_type direction : string)
    (query_filter : option (list json)) (page_size : Z) : PhotoAlbum :=
  {| name := name; service := service; list_type := list_type;
     obj_type := obj_type; direction := direction;
     query_filter := query_filter; page_size := page_size;
     exception_handler := None; _len := JNull |}.

(** [self._len = v] *)
Definition set_len (a : PhotoAlbum) (v : json) : PhotoAlbum :=
  {| name := name a; service := service a; list_type := list_type a;
     obj_type := obj_type a; direction := direction a;
     query_filter := query_filter a; page_size := page_size a;
     exception_handler := exception_handler a; _len := v |}.

(** [PhotoAlbum.__len__]: while [self._len is None] the count query is sent
    and the item count of its reply is stored ([count_reply] is the
    [itemCount] value read from the reply, or what the query or the reading
    raised); the method returns what is stored. *)
Definition __len__ (a : PhotoAlbum) (count_reply : result json)
  : PhotoAlbum * result json :=
  match _len a with
  | JNull =>
      match count_reply with
      | Ok v => (set_len a v, Ok v)
      | Raise e => (a, Raise e)
      end
  | v => (a, Ok v)
  end.

(** The integer a value stands for where an index is wanted. *)
Definition operator_index (v : json) : result Z :=
  match v with
  | JNum n => Ok n
  | JBool b => Ok (if b then 1 else 0)%Z
  | _ => Raise TypeError
  end.

(** What the builtin [len] makes of the value [__len__] returned: it must be
    an integer, not negative, and fit the platform's index type, whose
    largest value is [sys.maxsize]. *)
Definition checked_len (sys_maxsize : Z) (v : json) : result Z :=
  n ← operator_index v;
  if (n <? 0)%Z then Raise ValueError
  else if (sys_maxsize <? n)%Z then Raise OverflowError
  else Ok n.

(** [len(album)] *)
Definition len (sys_maxsize : Z) (a : PhotoAlbum) (count_reply : result json)
  : PhotoAlbum * result Z :=
  let '(a', returned) := __len__ a count_reply in
  (a', returned ≫= checked_len sys_maxsize).

(** What one call of [photos_request] followed by [request.json()] meets. *)
Inductive reply : Type :=
| RequestRaises (ex : exn)
| JsonRaises (ex : exn)
| Response (records : option (list raw_record)).

(** What the generator does, as its consumer and the session see it. *)
Inductive event : Type :=
| Request (offset : Z)
| Handled (ex : exn) (attempt : nat)
| Yield (p : PhotoAsset).

(** How a run of the generator ends: the sequence is exhausted, an exception
    reaches the caller, or the replies listed ran out and the generator is
    about to send its next request. *)
Inductive ending : Type :=
| Exhausted
| Raised (ex : exn)
| Pending (offset : Z) (exception_retries : nat).

(** The key under which an asset record is stored: only a text key can be
    equal to the name of a master record, a list or a dictionary cannot be a
    key at all. *)
Definition master_ref (rec : raw_record) : result (option string) :=
  entry ← Py.item (fields rec) "masterRef";
  value ← Py.subscript entry "value";
  master_id ← Py.subscript value "recordName";
  match master_id with
  | JStr s => Ok (Some s)
  | JArr _ | JObj _ => Raise TypeError
  | _ => Ok None
  end.

(** The first loop over a page: [asset_records] and [master_records]. *)
Fixpoint split_records (records : list raw_record)
    (asset_records : gmap string raw_record) (master_records : list raw_record)
  : result (gmap string raw_record * list raw_record) :=
  match records with
  | [] => Ok (asset_records, master_records)
  | rec :: rest =>
      if String.eqb (recordType rec) "CPLAsset" then
        master_id ← master_ref rec;
        match master_id with
        | Some k => split_records rest (<[k := rec]> asset_records) master_records
        | None => split_records rest asset_records master_records
        end
      else if String.eqb (recordType rec) "CPLMaster" then
        split_records rest asset_records (master_records ++ [rec])
      else split_records rest asset_records master_records
  end.

(** The second loop: one entity per master record, until a lookup in
    [asset_records] fails. *)
Fixpoint yield_assets (svc : PhotosService)
    (asset_records : gmap string raw_record) (master_records : list raw_record)
  : list PhotoAsset * option exn :=
  match master_records with
  | [] => ([], None)
  | master_record :: rest =>
      let record_name := recordName master_record in
      match asset_records !! record_name with
      | Some asset_record =>
          let '(ps, e) := yield_assets svc asset_records rest in
          (PhotoAsset_init svc master_record asset_record :: ps, e)
      | None => ([], Some (KeyError record_name))
      end
  end.

Definition descending (a : PhotoAlbum) : bool :=
  String.eqb (direction a) "DESCENDING".

Definition advance (a : PhotoAlbum) (offset : Z) (master_records_len : nat) : Z :=
  if descending a then (offset - Z.of_nat master_records_len)%Z
  else (offset + Z.of_nat master_records_len)%Z.

(** The [while True] loop of [photos], one reply per iteration. *)
Fixpoint photos_loop (a : PhotoAlbum) (offset : Z) (exception_retries : nat)
    (net : list reply) : list event * ending :=
  match net with
  | [] => ([], Pending offset exception_retries)
  | RequestRaises ex :: net' =>
      match exception_handler a with
      | Some h =>
          let exception_retries := S exception_retries in
          match h ex exception_retries with
          | None =>
              let '(evs, e) := photos_loop a offset exception_retries net' in
              (Request offset :: Handled ex exception_retries :: evs, e)
          | Some ex' =>
              ([Request offset; Handled ex exception_retries], Raised ex')
          end
      | None => ([Request offset], Raised ex)
      end
  | JsonRaises ex :: _ => ([Request offset], Raised ex)
  | Response None :: _ => ([Request offset], Raised (KeyError "records"))
  | Response (Some records) :: net' =>
      match split_records records ∅ [] with
      | Raise ex => ([Request offset], Raised ex)
      | Ok (asset_records, master_records) =>
          let master_records_len := List.length master_records in
          if (master_records_len =? 0)%nat then ([Request offset], Exhausted)
          else
            let offset' := advance a offset master_records_len in
            match yield_assets (service a) asset_records master_records with
            | (ps, Some ex) => (Request offset :: map Yield ps, Raised ex)
            | (ps, None) =>
                let '(evs, e) := photos_loop a offset' 0 net' in
                (Request offset :: map Yield ps ++ evs, e)
            end
      end
  end.

(** [PhotoAlbum.photos], run against the reply of the count query and the
    replies of the page requests. *)
Definition photos (sys_maxsize : Z) (a : PhotoAlbum)
    (count_reply : result json) (net : list reply) : list event * ending :=
  if descending a then
    match len sys_maxsize a count_reply with
    | (_, Ok n) => photos_loop a (n - 1)%Z 0 net
    | (_, Raise ex) => ([], Raised ex)
    end
  else photos_loop a 0%Z 0 net.

(** ** Sample records *)

Module Sample.

Definition svc : PhotosService :=
  {| session_get := fun url =>
       match url with
       | JStr u => Ok (HttpResponse 200 u)
       | _ => Raise (SessionError 0)
       end |}.

(** A field entry [{"value": v}]. *)
Definition entry (v : json) : json := JObj {[ "value" := v ]}.

(** The value of a "...Res" field. *)
Definition res (sz : Z) (url : string) : json :=
  entry (JObj (<["size" := JNum sz]> {[ "downloadURL" := JStr url ]})).

Definition master (record_name : string) (flds : list (string * json)) : raw_record :=
  {| recordType := "CPLMaster"; recordName := record_name;
     recordChangeTag := "1"; fields := list_to_map flds |}.

Definition asset (record_name master_id : string) : raw_record :=
  {| recordType := "CPLAsset"; recordName := record_name;
     recordChangeTag := "1";
     fields := {[ "masterRef" :=
                    entry (JObj {[ "recordName" := JStr master_id ]}) ]} |}.

(** An asset record that has no masterRef field. *)
Definition unreferenced (record_name : string) : raw_record :=
  {| recordType := "CPLAsset"; recordName := record_name;
     recordChangeTag := "1"; fields := ∅ |}.

Definition photo (record_name : string) (flds : list (string * json)) : PhotoAsset :=
  PhotoAsset_init svc (master record_name flds) (asset "A" record_name).

Definition named (filename_enc : string) : PhotoAsset :=
  photo "M1" [("filenameEnc", entry (JStr filename_enc));
              ("itemType", entry (JStr "public.jpeg"))].

Definition unnamed (record_name : string) : PhotoAsset :=
  photo record_name [("itemType", entry (JStr "public.jpeg"))].

End Sample.

Module Scenario.

(** [sys.maxsize] of a 64-bit build. *)
Definition sys_maxsize : Z := 9223372036854775807.

(** Record names "m0", "m1", ... *)
Definition decimal (i : nat) : string :=
  DecimalString.NilEmpty.string_of_uint (Nat.to_uint i).

Definition master_name (i : nat) : string := "m" ++ decimal i.

Definition matched_pair (i : nat) : list raw_record :=
  [ Sample.asset ("a" ++ decimal i) (master_name i);
    Sample.master (master_name i) [] ].

(** A page with the masters numbered [start], ..., [start + n - 1], each
    preceded by its asset record. *)
Definition page (start n : nat) : reply :=
  Response (Some (flat_map matched_pair (seq start n))).

Definition album (direction : string) : PhotoAlbum :=
  PhotoAlbum_init Sample.svc "All Photos" "CPLAssetAndMasterByAddedDate"
    "CPLAssetByAddedDate" direction None 100.

Fixpoint requests (evs : list event) : list Z :=
  match evs with
  | [] => []
  | Request offset :: evs' => offset :: requests evs'
  | _ :: evs' => requests evs'
  end.

Fixpoint yields (evs : list event) : list PhotoAsset :=
  match evs with
  | [] => []
  | Yield p :: evs' => p :: yields evs'
  | _ :: evs' => yields evs'
  end.

Fixpoint handled (evs : list event) : list (exn * nat) :=
  match evs with
  | [] => []
  | Handled ex n :: evs' => (ex, n) :: handled evs'
  | _ :: evs' => handled evs'
  end.

End Scenario.

(** ** Readable field entries

    What [versions] needs of the entries that are present: an entry that
    is true carries a "value", and the value of a "...Res" entry carries a
    "size" and a "downloadURL".  Nothing is asked of fields that are absent. *)

Definition readable (flds : gmap string json) (key : string) : Prop :=
  forall entry, flds !! key = Some entry -> Py.truthy entry = true ->
    exists m v, entry = JObj m /\ m !! "value" = Some v.

Definition readable_res (flds : gmap string json) (key : string) : Prop :=
  forall entry, flds !! key = Some entry -> Py.truthy entry = true ->
    exists m mv sz url, entry = JObj m /\ m !! "value" = Some (JObj mv)
      /\ mv !! "size" = Some sz /\ mv !! "downloadURL" = Some url.

Definition readable_version (p : PhotoAsset) (prefix : string) : Prop :=
  readable (master_fields p) (prefix ++ "Width")
  /\ readable (master_fields p) (prefix ++ "Height")
  /\ readable (master_fields p) (prefix ++ "FileType")
  /\ readable_res (master_fields p) (prefix ++ "Res").

(** The table [versions] selects for an item type. *)
Definition typed_version_lookup (kind : string) : list (string * string) :=
  if String.eqb kind "movie" then VIDEO_VERSION_LOOKUP else PHOTO_VERSION_LOOKUP.

(** What holds of the mapping stored on an entity, whenever it was stored:
    each entry was built for its key from the master record. *)
Definition versions_invariant (p : PhotoAsset) : Prop :=
  forall vs key v,
    _versions p = Some vs -> vs !! key = Some v ->
    exists kind prefix,
      item_type p = Ok kind
      /\ In (key, prefix) (typed_version_lookup kind)
      /\ has_field p (prefix ++ "Res") = true
      /\ build_version p prefix = Ok v.

Module SampleVersions.
Import Sample.

(** A still image with an original rendition only, and no height. *)
Definition still : PhotoAsset :=
  photo "M1" [("filenameEnc", entry (JStr (Base64.b64encode "IMG_0001.JPG")));
              ("itemType", entry (JStr "public.jpeg"));
              ("resOriginalRes", res 10 "https://cdn/original");
              ("resOriginalWidth", entry (JNum 4032));
              ("resOriginalFileType", entry (JStr "public.jpeg"))].

(** A live photo: a HEIC still with its movie component. *)
Definition live (name : string) : PhotoAsset :=
  photo "M2" [("filenameEnc", entry (JStr (Base64.b64encode name)));
              ("itemType", entry (JStr "public.heic"));
              ("resOriginalRes", res 10 "https://cdn/original");
              ("resOriginalFileType", entry (JStr "public.heic"));
              ("resOriginalVidComplRes", res 20 "https://cdn/movie");
              ("resOriginalVidComplFileType", entry (JStr quicktime_movie))].

(** An entity none of whose renditions is there. *)
Definition bare : PhotoAsset :=
  photo "M3" [("itemType", entry (JStr "public.jpeg"))].

(** An original rendition whose "...Res" entry has a size and no url. *)
Definition no_url : PhotoAsset :=
  photo "M4" [("filenameEnc", entry (JStr (Base64.b64encode "IMG_0004.JPG")));
              ("itemType", entry (JStr "public.jpeg"));
              ("resOriginalRes", entry (JObj {[ "size" := JNum 10 ]}))].

End SampleVersions.

(** ** Pages *)

Definition is_master (rec : raw_record) : bool :=
  String.eqb (recordType rec) "CPLMaster".

Definition is_asset (rec : raw_record) : bool :=
  String.eqb (recordType rec) "CPLAsset".

(** The master records of a page, in the order of the response. *)
Definition masters_of (records : list raw_record) : list raw_record :=
  List.filter is_master records.

(** Registering a retry handler: [album.exception_handler = h]. *)
Definition set_exception_handler (a : PhotoAlbum) (h : handler) : PhotoAlbum :=
  {| name := name a; service := service a; list_type := list_type a;
     obj_type := obj_type a; direction := direction a;
     query_filter := query_filter a; page_size := page_size a;
     exception_handler := Some h; _len := _len a |}.

(** Two dictionaries of asset records that differ at the key [k] at most. *)
Definition agree_except (k : string) (m1 m2 : gmap string raw_record) : Prop :=
  forall j, j <> k -> m1 !! j = m2 !! j.

(** What the generator does while the requests in [exs] fail one after the
    other and the handler returns each time. *)
Fixpoint retry_events (offset : Z) (retries : nat) (exs : list exn)
  : list event :=
  match exs with
  | [] => []
  | ex :: exs' =>
      Request offset :: Handled ex (S retries)
        :: retry_events offset (S retries) exs'
  end.

Fixpoint handler_returns (h : handler) (retries : nat) (exs : list exn) : Prop :=
  match exs with
  | [] => True
  | ex :: exs' => h ex (S retries) = None /\ handler_returns h (S retries) exs'
  end.

(** Two outcomes of the first loop over a page that are the same up to the
    asset stored under [k]. *)
Definition split_rel (k : string)
    (r1 r2 : result (gmap string raw_record * list raw_record)) : Prop :=
  match r1, r2 with
  | Ok (assets1, masters1), Ok (assets2, masters2) =>
      masters1 = masters2 /\ agree_except k assets1 assets2
  | Raise e1, Raise e2 => e1 = e2
  | _, _ => False
  end.

Module SampleAlbum.

(** A handler that gives up at the third attempt. *)
Definition patient : handler :=
  fun ex attempt => if (attempt <? 3)%nat then None else Some ex.

Definition album : PhotoAlbum :=
  set_exception_handler (Scenario.album "ASCENDING") patient.

End SampleAlbum.

(** A page the second loop gets through: it has master records, and each
    has its asset record. *)
Definition reconciled (records : list raw_record) : Prop :=
  exists assets masters,
    split_records records ∅ [] = Ok (assets, masters)
    /\ masters <> []
    /\ forall m, In m masters -> assets !! recordName m <> None.

(** The offsets at which a sequence of pages is requested. *)
Fixpoint page_offsets (a : PhotoAlbum) (offset : Z)
    (pages : list (list raw_record)) : list Z :=
  match pages with
  | [] => []
  | records :: rest =>
      offset
        :: page_offsets a (advance a offset (List.length (masters_of records))) rest
  end.

Definition final_offset (a : PhotoAlbum) (offset : Z)
    (pages : list (list raw_record)) : Z :=
  fold_left (fun o records => advance a o (List.length (masters_of records)))
    pages offset.

Definition page_reply (records : list raw_record) : reply :=
  Response (Some records).

(** Entries of a record given in full are read by evaluation. *)
Ltac solve_readable :=
  let entry := fresh "entry" in
  let He := fresh "He" in
  intros entry He _; vm_compute in He;
  first
    [ discriminate He
    | injection He as <-;
      first [ eexists _, _, _, _; repeat split; vm_compute; reflexivity
            | eexists _, _; split; [reflexivity | vm_compute; reflexivity] ] ].

Ltac solve_readable_versions :=
  let key := fresh "key" in
  let prefix := fresh "prefix" in
  let Hin := fresh "Hin" in
  let Hh := fresh "Hh" in
  intros key prefix Hin Hh; vm_compute in Hin;
  repeat (destruct Hin as [Hin|Hin];
          [ injection Hin as <- <-;
            first [ discriminate Hh
                  | repeat split; solve_readable ]
          | ]);
  destruct Hin.

(** ** The rest of [PhotoAsset] *)

(** [PhotoAsset.size] *)
Definition size_of (p : PhotoAsset) : result json :=
  entry ← Py.item (master_fields p) "resOriginalRes";
  value ← Py.subscript entry "value";
  Py.subscript value "size".

(** [PhotoAsset.dimensions] *)
Definition dimensions (p : PhotoAsset) : result (json * json) :=
  entry ← Py.item (master_fields p) "resOriginalWidth";
  width ← Py.subscript entry "value";
  entry' ← Py.item (master_fields p) "resOriginalHeight";
  height ← Py.subscript entry' "value";
  Ok (width, height).

Section Dates.

(** A point in time, and [datetime.utcfromtimestamp(ms / 1000.0)] with its
    zone set to UTC, for a number of milliseconds. *)
Variable datetime : Type.
Variable utc_of_millis : Z -> result datetime.

(** The operand of [value / 1000.0]: a number. *)
Definition millis (value : json) : result Z :=
  match value with
  | JNum n => Ok n
  | JBool b => Ok (if b then 1 else 0)%Z
  | _ => Raise TypeError
  end.

(** [fields[key]["value"] / 1000.0] turned into a time. *)
Definition date_field (rec : raw_record) (key : string) : result datetime :=
  entry ← Py.item (fields rec) key;
  value ← Py.subscript entry "value";
  ms ← millis value;
  utc_of_millis ms.

(** [PhotoAsset.asset_date]: a [KeyError] gives the time zero. *)
Definition asset_date (p : PhotoAsset) : result datetime :=
  match date_field (_asset_record p) "assetDate" with
  | Raise (KeyError _) => utc_of_millis 0
  | r => r
  end.

(** [PhotoAsset.created] *)
Definition created (p : PhotoAsset) : result datetime := asset_date p.

(** [PhotoAsset.added_date] *)
Definition added_date (p : PhotoAsset) : result datetime :=
  date_field (_asset_record p) "addedDate".

End Dates.

(** ** [PhotosService]: the folders and the albums *)

(** How a run against a list of replies ends: with a value, with an
    exception, or waiting for a reply that the list does not have. *)
Inductive outcome (A : Type) : Type :=
| Done (a : A)
| Failed (ex : exn)
| Blocked.
Arguments Done {A} a.
Arguments Failed {A} ex.
Arguments Blocked {A}.

Module Folders.

(** The decoded body of a folder query. *)
Record response : Type := {
  records : option (list raw_record);
  continuationMarker : option json
}.

(** What [session.post] followed by [request.json()] meets. *)
Inductive reply : Type :=
| PostRaises (ex : exn)
| BodyRaises (ex : exn)
| Body (r : response).

Definition quote : string := String (ascii_of_nat 34) EmptyString.

Definition quoted (s : string) : string := quote ++ s ++ quote.

(** The text of the query up to the closing brace. *)
Definition query_head : string :=
  "{" ++ quoted "query" ++ ":{" ++ quoted "recordType" ++ ":"
  ++ quoted "CPLAlbumByPositionLive" ++ "}," ++ quoted "zoneID" ++ ":{"
  ++ quoted "zoneName" ++ ":" ++ quoted "PrimarySync" ++ "}".

Definition first_query : string := query_head ++ "}".

Definition next_query (marker : string) : string :=
  query_head ++ "," ++ quoted "continuationMarker" ++ ":" ++ quote
  ++ marker ++ quote ++ "}".

End Folders.

(** The [while 'continuationMarker' in response] loop of [_fetch_folders]:
    the bodies posted, and the records gathered. *)
Fixpoint fetch_more (response : Folders.response) (records : list raw_record)
    (net : list Folders.reply) {struct net}
  : list string * outcome (list raw_record) :=
  match Folders.continuationMarker response with
  | None => ([], Done records)
  | Some (JStr marker) =>
      let json_data := Folders.next_query marker in
      match net with
      | [] => ([], Blocked)
      | Folders.PostRaises ex :: _ => ([json_data], Failed ex)
      | Folders.BodyRaises ex :: _ => ([json_data], Failed ex)
      | Folders.Body response' :: net' =>
          match Folders.records response' with
          | None => ([json_data], Failed (KeyError "records"))
          | Some more =>
              let '(posted, out) :=
                fetch_more response' (records ++ more) net' in
              (json_data :: posted, out)
          end
      end
  | Some _ => ([], Failed TypeError)
  end.

(** [PhotosService._fetch_folders] *)
Definition _fetch_folders (net : list Folders.reply)
  : list string * outcome (list raw_record) :=
  match net with
  | [] => ([], Blocked)
  | Folders.PostRaises ex :: _ => ([Folders.first_query], Failed ex)
  | Folders.BodyRaises ex :: _ => ([Folders.first_query], Failed ex)
  | Folders.Body response :: net' =>
      match Folders.records response with
      | None => ([Folders.first_query], Failed (KeyError "records"))
      | Some records =>
          let '(posted, out) := fetch_more response records net' in
          (Folders.first_query :: posted, out)
      end
  end.

(** A filter clause [{"fieldName": .., "comparator": "EQUALS", "fieldValue":
    {"type": "STRING", "value": ..}}]. *)
Definition equals_filter (field_name value : string) : json :=
  JObj (<["fieldName" := JStr field_name]>
        (<["comparator" := JStr "EQUALS"]>
         {[ "fieldValue" :=
              JObj (<["type" := JStr "STRING"]> {[ "value" := JStr value ]}) ]})).

Definition smart_album_filter (value : string) : option (list json) :=
  Some [equals_filter "smartAlbum" value].

(** [PhotosService.SMART_FOLDERS]: name, obj_type, list_type, direction,
    query_filter. *)
Definition SMART_FOLDERS
  : list (string * (string * string * string * option (list json))) :=
  [ ("All Photos",
     ("CPLAssetByAddedDate", "CPLAssetAndMasterByAddedDate", "ASCENDING", None));
    ("Time-lapse",
     ("CPLAssetInSmartAlbumByAssetDate:Timelapse",
      "CPLAssetAndMasterInSmartAlbumByAssetDate", "ASCENDING",
      smart_album_filter "TIMELAPSE"));
    ("Videos",
     ("CPLAssetInSmartAlbumByAssetDate:Video",
      "CPLAssetAndMasterInSmartAlbumByAssetDate", "ASCENDING",
      smart_album_filter "VIDEO"));
    ("Slo-mo",
     ("CPLAssetInSmartAlbumByAssetDate:Slomo",
      "CPLAssetAndMasterInSmartAlbumByAssetDate", "ASCENDING",
      smart_album_filter "SLOMO"));
    ("Bursts",
     ("CPLAssetBurstStackAssetByAssetDate",
      "CPLBurstStackAssetAndMasterByAssetDate", "ASCENDING", None));
    ("Favorites",
     ("CPLAssetInSmartAlbumByAssetDate:Favorite",
      "CPLAssetAndMasterInSmartAlbumByAssetDate", "ASCENDING",
      smart_album_filter "FAVORITE"));
    ("Panoramas",
     ("CPLAssetInSmartAlbumByAssetDate:Panorama",
      "CPLAssetAndMasterInSmartAlbumByAssetDate", "ASCENDING",
      smart_album_filter "PANORAMA"));
    ("Screenshots",
     ("CPLAssetInSmartAlbumByAssetDate:Screenshot",
      "CPLAssetAndMasterInSmartAlbumByAssetDate", "ASCENDING",
      smart_album_filter "SCREENSHOT"));
    ("Live",
     ("CPLAssetInSmartAlbumByAssetDate:Live",
      "CPLAssetAndMasterInSmartAlbumByAssetDate", "ASCENDING",
      smart_album_filter "LIVE"));
    ("Recently Deleted",
     ("CPLAssetDeletedByExpungedDate",
      "CPLAssetAndMasterDeletedByExpungedDate", "ASCENDING", None));
    ("Hidden",
     ("CPLAssetHiddenByAssetDate", "CPLAssetAndMasterHiddenByAssetDate",
      "ASCENDING", None)) ].

(** [PhotoAlbum(self, name, **props)] for one smart folder. *)
Definition smart_album (svc : PhotosService)
    (entry : string * (string * string * string * option (list json)))
  : PhotoAlbum :=
  let '(name, (obj_type, list_type, direction, query_filter)) := entry in
  PhotoAlbum_init svc name list_type obj_type direction query_filter 100.

(** The dictionary comprehension over [SMART_FOLDERS]. *)
Definition smart_albums (svc : PhotosService) : gmap string PhotoAlbum :=
  fold_left (fun albums entry => <[fst entry := smart_album svc entry]> albums)
    SMART_FOLDERS ∅.

Definition root_folder : string := "----Root-Folder----".

(** The test that skips a folder: it is the root folder, or its "isDeleted"
    field is there, true, and carries a true value. *)
Definition folder_skipped (folder : raw_record) : result bool :=
  if String.eqb (recordName folder) root_folder then Ok true
  else
    match fields folder !! "isDeleted" with
    | Some entry =>
        if Py.truthy entry then
          entry' ← Py.item (fields folder) "isDeleted";
          value ← Py.subscript entry' "value";
          Ok (Py.truthy value)
        else Ok false
    | None => Ok false
    end.

(** [base64.b64decode(x).decode("utf-8")] for a field value. *)
Definition decode_name (value : json) : result string :=
  match value with
  | JStr s => bytes ← Base64.b64decode s; Text.decode_utf8 bytes
  | _ => Raise TypeError
  end.

(** The album of a folder that is kept, under its decoded name. *)
Definition folder_album (svc : PhotosService) (folder : raw_record)
  : result (string * PhotoAlbum) :=
  let folder_id := recordName folder in
  let folder_obj_type :=
    "CPLContainerRelationNotDeletedByAssetDate:" ++ folder_id in
  entry ← Py.item (fields folder) "albumNameEnc";
  value ← Py.subscript entry "value";
  folder_name ← decode_name value;
  let query_filter := [equals_filter "parentId" folder_id] in
  Ok (folder_name,
      PhotoAlbum_init svc folder_name "CPLContainerRelationLiveByAssetDate"
        folder_obj_type "ASCENDING" (Some query_filter) 100).

(** The loop of [albums] over the folders: [self._albums] is written in
    place, so what was added stays when a folder raises. *)
Fixpoint add_folders (svc : PhotosService) (folders : list raw_record)
    (albums : gmap string PhotoAlbum) : gmap string PhotoAlbum * option exn :=
  match folders with
  | [] => (albums, None)
  | folder :: rest =>
      match fields folder !! "albumNameEnc" with
      | None => add_folders svc rest albums
      | Some _ =>
          match folder_skipped folder with
          | Raise e => (albums, Some e)
          | Ok true => add_folders svc rest albums
          | Ok false =>
              match folder_album svc folder with
              | Raise e => (albums, Some e)
              | Ok (folder_name, album) =>
                  add_folders svc rest (<[folder_name := album]> albums)
              end
          end
      end
  end.

(** The attributes of [PhotosService] that [albums] reads and writes. *)
Record Catalog : Type := {
  catalog_service : PhotosService;
  _albums : option (gmap string PhotoAlbum)
}.

Definition set_albums (c : Catalog) (albums : gmap string PhotoAlbum) : Catalog :=
  {| catalog_service := catalog_service c; _albums := Some albums |}.

(** The guard of [albums], [not self._albums]. *)
Definition albums_unset (c : Catalog) : bool :=
  match _albums c with
  | None => true
  | Some albums => (size albums =? 0)%nat
  end.

(** The block guarded by [if not self._albums]. *)
Definition albums_compute (c : Catalog) (net : list Folders.reply)
  : Catalog * list string * outcome (gmap string PhotoAlbum) :=
  let smart := smart_albums (catalog_service c) in
  match _fetch_folders net with
  | (posted, Done folders) =>
      match add_folders (catalog_service c) folders smart with
      | (albums, None) => (set_albums c albums, posted, Done albums)
      | (albums, Some e) => (set_albums c albums, posted, Failed e)
      end
  | (posted, Failed e) => (set_albums c smart, posted, Failed e)
  | (posted, Blocked) => (set_albums c smart, posted, Blocked)
  end.

(** [PhotosService.albums]: the service afterwards, the bodies posted, and
    the dictionary returned. *)
Definition albums (c : Catalog) (net : list Folders.reply)
  : Catalog * list string * outcome (gmap string PhotoAlbum) :=
  if albums_unset c then albums_compute c net
  else
    match _albums c with
    | Some stored => (c, [], Done stored)
    | None => albums_compute c net
    end.

(** [PhotosService.all] *)
Definition all (c : Catalog) (net : list Folders.reply)
  : Catalog * list string * outcome PhotoAlbum :=
  match albums c net with
  | (c', posted, Done stored) =>
      match stored !! "All Photos" with
      | Some album => (c', posted, Done album)
      | None => (c', posted, Failed (KeyError "All Photos"))
      end
  | (c', posted, Failed e) => (c', posted, Failed e)
  | (c', posted, Blocked) => (c', posted, Blocked)
  end.

(** ** Folder listings *)

Module SampleFolders.

(** A page of the listing that announces another one. *)
Definition marked_page (page : list raw_record * string) : Folders.reply :=
  Folders.Body {| Folders.records := Some (fst page);
                  Folders.continuationMarker := Some (JStr (snd page)) |}.

(** The page that ends the listing. *)
Definition last_page (records : list raw_record) : Folders.reply :=
  Folders.Body {| Folders.records := Some records;
                  Folders.continuationMarker := None |}.

(** A folder record with a name. *)
Definition folder (record_name folder_name : string)
    (more : list (string * json)) : raw_record :=
  {| recordType := "CPLAlbum"; recordName := record_name;
     recordChangeTag := "1";
     fields := <["albumNameEnc" :=
                   Sample.entry (JStr (Base64.b64encode folder_name))]>
               (list_to_map more) |}.

Definition fresh : Catalog :=
  {| catalog_service := Sample.svc; _albums := None |}.

End SampleFolders.

(** A folder that the loop of [albums] registers under [name]. *)
Definition registers (svc : PhotosService) (folder : raw_record)
    (name : string) (album : PhotoAlbum) : Prop :=
  fields folder !! "albumNameEnc" <> None
  /\ folder_skipped folder = Ok false
  /\ folder_album svc folder = Ok (name, album).

Module SampleCatalog.
Import SampleFolders.

(** A listing in two pages: the root folder, a deleted folder, a folder
    named "Trip", and a folder named like the smart album "All Photos". *)
Definition root : raw_record := folder root_folder "Library" [].

Definition deleted : raw_record :=
  folder "F1" "Old" [("isDeleted", Sample.entry (JNum 1))].

Definition trip : raw_record := folder "F2" "Trip" [].

Definition shadow : raw_record := folder "F3" "All Photos" [].

Definition listing : list Folders.reply :=
  [marked_page ([root; deleted], "page-2"); last_page [trip; shadow]].

(** A listing whose second folder has a name that cannot be decoded. *)
Definition broken : raw_record :=
  {| recordType := "CPLAlbum"; recordName := "F4"; recordChangeTag := "1";
     fields := {[ "albumNameEnc" := Sample.entry (JStr "A") ]} |}.

Definition broken_listing : list Folders.reply :=
  [last_page [trip; broken; shadow]].

End SampleCatalog.

Definition is_done {A} (out : outcome A) : bool :=
  match out with
  | Done _ => true
  | _ => false
  end.

(** The album of the folder with record name [folder_id], as [albums]
    builds it. *)
Definition album_of_folder (folder_id folder_name : string) : PhotoAlbum :=
  PhotoAlbum_init Sample.svc folder_name "CPLContainerRelationLiveByAssetDate"
    ("CPLContainerRelationNotDeletedByAssetDate:" ++ folder_id) "ASCENDING"
    (Some [equals_filter "parentId" folder_id]) 100.

Module SampleMore.
Import Sample.

(** An entity whose medium rendition has a width entry without a value. *)
Definition half_readable : PhotoAsset :=
  photo "M4" [("filenameEnc", entry (JStr (Base64.b64encode "IMG_0004.JPG")));
              ("itemType", entry (JStr "public.jpeg"));
              ("resOriginalRes", res 10 "https://cdn/original");
              ("resJPEGMedRes", res 5 "https://cdn/medium");
              ("resJPEGMedWidth", JObj {[ "type" := JStr "INT64" ]})].

(** An entity whose name is not base64. *)
Definition misnamed : PhotoAsset :=
  photo "M5" [("filenameEnc", entry (JStr "A"));
              ("itemType", entry (JStr "public.jpeg"));
              ("resOriginalRes", res 10 "https://cdn/original")].

(** A live photo whose name has no extension. *)
Definition bare_name : PhotoAsset := SampleVersions.live "IMG_0006".

(** An entity with the size and the dimensions of its original. *)
Definition sized : PhotoAsset :=
  photo "M7" [("filenameEnc", entry (JStr (Base64.b64encode "IMG_0007.JPG")));
              ("itemType", entry (JStr "public.jpeg"));
              ("resOriginalRes", res 2048 "https://cdn/original");
              ("resOriginalWidth", entry (JNum 640));
              ("resOriginalHeight", entry (JNum 480))].

(** A GIF without a name. *)
Definition gif : PhotoAsset :=
  photo "AbC/+=12345678xyz" [("itemType", entry (JStr "com.compuserve.gif"))].

End SampleMore.

(** The characters of the stem of a synthetic filename. *)
Definition is_stem_char (c : ascii) : bool :=
  Text.is_alnum c || Ascii.eqb c "_".

(** ** The asset record a page keeps for a master *)

(** An asset record whose masterRef is the text [k]. *)
Definition refers_to (k : string) (rec : raw_record) : bool :=
  is_asset rec
  && match master_ref rec with
     | Ok (Some s) => String.eqb s k
     | _ => false
     end.

(** The last record of the page that refers to [k]. *)
Definition last_asset (k : string) (records : list raw_record)
  : option raw_record :=
  fold_left (fun kept rec => if refers_to k rec then Some rec else kept)
    records None.

Definition readable_ref (rec : raw_record) : Prop :=
  is_asset rec = true -> exists r, master_ref rec = Ok r.

(** The number of master records in a sequence of pages. *)
Definition masters_total (pages : list (list raw_record)) : Z :=
  Z.of_nat (List.length (concat (map masters_of pages))).

Module SamplePages.

(** A page with two asset records for one master, the second one after the
    master record. *)
Definition superseded : list raw_record :=
  [ Sample.asset "a0" "m0"; Sample.master "m0" []; Sample.asset "a1" "m0" ].

(** Three masters in two pages. *)
Definition two_pages : list (list raw_record) :=
  [ flat_map Scenario.matched_pair (seq 0 2);
    flat_map Scenario.matched_pair (seq 2 1) ].

(** What [split_records] makes of a page, when it succeeds. *)
Definition split (records : list raw_record)
  : gmap string raw_record * list raw_record :=
  match split_records records ∅ [] with
  | Ok am => am
  | Raise _ => (∅, [])
  end.

End SamplePages.

(** * Properties *)

(** ** Sample runs *)

Example b64encode_abc : Base64.b64encode "IMG_0001.JPG" = "SU1HXzAwMDEuSlBH".
Proof. vm_compute. reflexivity. Qed.
Example b64encode_pad : Base64.b64encode "ab" = "YWI=".
Proof. vm_compute. reflexivity. Qed.
Example b64decode_pad : Base64.b64decode "YWI=" = Ok "ab".
Proof. vm_compute. reflexivity. Qed.
Example b64decode_lenient : Base64.b64decode "YWLD.pngh" = Ok ("ab" ++ String (ascii_of_N 195) (String (ascii_of_N 166) "x!")).
Proof. vm_compute. reflexivity. Qed.
Example b64decode_short : Base64.b64decode "YWJjZ" = Raise ValueError.
Proof. vm_compute. reflexivity. Qed.

(** ** Text and Base64 *)

Section Strings.






Lemma is_prefix_app s t : Text.is_prefix s (s ++ t) = true.
Proof.
  induction s as [|c s IH]; [reflexivity|].
  change (String c s ++ t) with (String c (s ++ t)).
  cbn [Text.is_prefix]. rewrite Ascii.eqb_refl. exact IH.
Qed.


End Strings.

Section Base64Facts.
Import Base64.













End Base64Facts.

(** ** [PhotoAsset.filename] *)

Section Filename.

Lemma sub_non_alnum_ascii s :
  Text.is_ascii s = true ->
  String.length (Text.sub_non_alnum s) = String.length s
  /\ forall i c, String.get i s = Some c ->
       String.get i (Text.sub_non_alnum s)
       = Some (if Text.is_alnum c then c else "_"%char).
Proof.
  unfold Text.is_ascii.
  induction s as [|d s IH]; cbn [Text.all_chars Text.sub_non_alnum].
  - intros _. split; [reflexivity|]. intros i c. destruct i; discriminate.
  - intros [Hd Hs]%andb_prop. destruct (IH Hs) as [IHl IHg].
    assert (Hc : Text.in_range 128 191 d = false).
    { unfold Text.in_range in *. apply andb_prop in Hd as [_ Hd].
      apply N.leb_le in Hd. apply andb_false_iff. left.
      apply N.leb_gt. lia. }
    rewrite Hc.
    destruct (Text.is_alnum d) eqn:Ed; cbn [String.length String.get].
    + split; [congruence|]. intros [|i] c; [intros [= <-]; rewrite Ed|]; auto.
    + split; [congruence|]. intros [|i] c; [intros [= <-]; rewrite Ed|]; auto.
Qed.

(** A name that is present with a text value: returned as it is when one
    of the four literals occurs in it, decoded otherwise. *)
Lemma filename_named p m s :
  master_fields p !! "filenameEnc" = Some (JObj m) ->
  m !! "value" = Some (JStr s) ->
  filename p =
    if has_plain_extension s then Ok s
    else Base64.b64decode s ≫= Text.decode_utf8.
Proof.
  intros Hentry Hvalue. unfold filename, has_plain_extension.
  rewrite Hentry. cbn [Py.contains Py.subscript]. rewrite Hvalue. cbn.
  destruct (Text.contains ".png" s); [reflexivity|].
  destruct (Text.contains ".dng" s); [reflexivity|].
  destruct (Text.contains ".mp4" s); [reflexivity|].
  destruct (Text.contains ".gif" s); reflexivity.
Qed.

Lemma plain_extension_contains ext s :
  In ext [".png"; ".dng"; ".mp4"; ".gif"] ->
  Text.contains ext s = true -> has_plain_extension s = true.
Proof.
  unfold has_plain_extension.
  intros [<-|[<-|[<-|[<-|[]]]]] ->; rewrite ?orb_true_r; reflexivity.
Qed.

Lemma filename_absent p :
  master_fields p !! "filenameEnc" = None ->
  filename p = synthetic_filename p.
Proof. intros H. unfold filename. rewrite H. reflexivity. Qed.

End Filename.



(** C9: the name field is returned unchanged as soon as ".png", ".dng",
    ".mp4" or ".gif" occurs anywhere in it, not only at its end, and it is
    then never base64-decoded, not even when the decoder would accept it and
    give a different name. *)
Theorem filename_substring_passthrough (p : PhotoAsset) m s ext before after :
  master_fields p !! "filenameEnc" = Some (JObj m) ->
  m !! "value" = Some (JStr s) ->
  In ext [".png"; ".dng"; ".mp4"; ".gif"] ->
  s = before ++ ext ++ after ->
  filename p = Ok s
  /\ forall text, Base64.b64decode s ≫= Text.decode_utf8 = Ok text ->
       text <> s -> filename p <> Ok text.
Proof.
  intros Hentry Hvalue Hext Hs.
  assert (Hf : filename p = Ok s).
  { rewrite (filename_named p m s Hentry Hvalue).
    rewrite (plain_extension_contains ext s Hext); [reflexivity|].
    subst s. clear. induction before as [|c before IH].
    - change ("" ++ ext ++ after) with (ext ++ after).
      destruct (ext ++ after) eqn:E; cbn [Text.contains].
      + destruct ext; [reflexivity | discriminate].
      + rewrite <- E, is_prefix_app. reflexivity.
    - change (String c before ++ ext ++ after)
        with (String c (before ++ ext ++ after)).
      cbn [Text.contains]. rewrite IH. apply orb_true_r. }
  split; [exact Hf|].
  intros text _ Hne. rewrite Hf. congruence.
Qed.

Lemma filename_substring_passthrough_witness :
  let p := Sample.named "YWLD.pngh" in
  filename p = Ok "YWLD.pngh"
  /\ Base64.b64decode "YWLD.pngh" ≫= Text.decode_utf8
     = Ok ("ab" ++ String (ascii_of_N 195) (String (ascii_of_N 166) "x!"))
  /\ filename p <> Ok ("ab" ++ String (ascii_of_N 195) (String (ascii_of_N 166) "x!")).
Proof.
  intros p.
  destruct (filename_substring_passthrough p {[ "value" := JStr "YWLD.pngh" ]}
              "YWLD.pngh" ".png" "YWLD" "h"
              eq_refl eq_refl (or_introl eq_refl) eq_refl) as [H1 H2].
  split; [exact H1|]. split; [reflexivity|].
  apply H2; [reflexivity | discriminate].
Defined.

(** ** Extensions *)

Section Extensions.

Lemma has_dot_app s t : Text.has_dot (s ++ t) = Text.has_dot s || Text.has_dot t.
Proof.
  induction s as [|c s IH]; [reflexivity|].
  change (String c s ++ t) with (String c (s ++ t)).
  cbn [Text.has_dot]. rewrite IH. apply orb_assoc.
Qed.

(** A name with an extension: the extension is what the substitution
    replaces. *)
Lemma sub_extension_ext repl stem ext :
  Text.nonempty ext = true -> Text.has_dot ext = false ->
  Text.sub_extension repl (stem ++ "." ++ ext) = stem ++ repl.
Proof.
  intros Hne Hnd. induction stem as [|c stem IH].
  - change ("" ++ "." ++ ext) with (String "." ext).
    cbn [Text.sub_extension]. rewrite Hne, Hnd. reflexivity.
  - change (String c stem ++ "." ++ ext) with (String c (stem ++ "." ++ ext)).
    cbn [Text.sub_extension]. rewrite has_dot_app.
    change (Text.has_dot ("." ++ ext)) with true.
    rewrite orb_true_r, andb_false_r, IH. reflexivity.
Qed.

(** A name without a dot has nothing to replace. *)
Lemma sub_extension_no_dot repl s :
  Text.has_dot s = false -> Text.sub_extension repl s = s.
Proof.
  induction s as [|c s IH]; [reflexivity|].
  cbn [Text.has_dot Text.sub_extension].
  intros [-> Hs]%orb_false_elim. rewrite (IH Hs). reflexivity.
Qed.

Lemma lower_char_dot c :
  Text.is_dot (Text.lower_char c) = Text.is_dot c.
Proof. destruct c as [[] [] [] [] [] [] [] []]; vm_compute; reflexivity. Qed.

Lemma has_dot_lower s : Text.has_dot (Text.lower s) = Text.has_dot s.
Proof.
  induction s as [|c s IH]; [reflexivity|].
  cbn [Text.lower Text.has_dot]. rewrite lower_char_dot, IH. reflexivity.
Qed.

Lemma nonempty_lower s : Text.nonempty (Text.lower s) = Text.nonempty s.
Proof. destruct s; reflexivity. Qed.

(** A name that ends in ".heic", in any case, has a four-letter extension. *)
Lemma endswith_heic s :
  Text.endswith (Text.lower s) ".heic" = true ->
  exists stem ext, s = stem ++ "." ++ ext /\ Text.lower ext = "heic".
Proof.
  induction s as [|c s IH]; cbn [Text.lower Text.endswith].
  - cbn. discriminate.
  - intros [H|H]%orb_prop.
    + apply String.eqb_eq in H. injection H as Hc Hs.
      exists "", s. split; [|exact Hs].
      assert (Hd : Text.is_dot c = true).
      { rewrite <- lower_char_dot, Hc. reflexivity. }
      unfold Text.is_dot in Hd. apply Ascii.eqb_eq in Hd. subst c. reflexivity.
    + destruct (IH H) as (stem & ext & -> & Hext).
      exists (String c stem), ext. split; [reflexivity | exact Hext].
Qed.

Lemma sub_extension_heic repl s :
  Text.endswith (Text.lower s) ".heic" = true ->
  exists stem ext, s = stem ++ "." ++ ext /\ Text.lower ext = "heic"
    /\ Text.sub_extension repl s = stem ++ repl.
Proof.
  intros (stem & ext & -> & Hext)%endswith_heic.
  exists stem, ext. repeat split; [exact Hext|].
  apply sub_extension_ext.
  - rewrite <- nonempty_lower, Hext. reflexivity.
  - rewrite <- has_dot_lower, Hext. reflexivity.
Qed.

End Extensions.

Section NoExtension.

Lemma sub_extension_trailing_dot repl stem :
  Text.sub_extension repl (stem ++ ".") = stem ++ ".".
Proof.
  induction stem as [|c stem IH]; [reflexivity|].
  change (String c stem ++ ".") with (String c (stem ++ ".")).
  cbn [Text.sub_extension]. rewrite has_dot_app.
  change (Text.has_dot ".") with true.
  rewrite orb_true_r, andb_false_r, IH. reflexivity.
Qed.

Lemma version_filename_kept kind type fn :
  Text.has_dot fn = false \/ (exists stem, fn = stem ++ ".") ->
  version_filename kind type fn = fn.
Proof.
  intros H. unfold version_filename.
  destruct (String.eqb kind "image" && Py.is_str quicktime_movie type);
    [|reflexivity].
  destruct H as [H|[stem ->]].
  - rewrite !(sub_extension_no_dot _ fn H). destruct (Text.endswith _ _); reflexivity.
  - rewrite !sub_extension_trailing_dot. destruct (Text.endswith _ _); reflexivity.
Qed.

End NoExtension.

Section LastDot.

(** Every name is without a dot, or splits at its last dot. *)
Lemma last_dot_split s :
  Text.has_dot s = false
  \/ exists stem ext, s = stem ++ "." ++ ext /\ Text.has_dot ext = false.
Proof.
  induction s as [|c s IH]; [left; reflexivity|].
  destruct IH as [Hs|(stem & ext & -> & Hext)].
  - destruct (Text.is_dot c) eqn:Ec.
    + right. exists "", s. split; [|exact Hs].
      unfold Text.is_dot in Ec. apply Ascii.eqb_eq in Ec. subst c. reflexivity.
    + left. cbn [Text.has_dot]. rewrite Ec, Hs. reflexivity.
  - right. exists (String c stem), ext. split; [reflexivity | exact Hext].
Qed.

End LastDot.

(** ** [PhotoAsset.versions] *)

Section Versions.

Lemma value_or_none_readable flds key :
  readable flds key -> exists v, value_or_none flds key = Ok v.
Proof.
  intros Hr. unfold value_or_none.
  destruct (flds !! key) as [entry|] eqn:E; [|eauto].
  destruct (Py.truthy entry) eqn:Et; [|eauto].
  destruct (Hr entry E Et) as (m & v & -> & Hv).
  cbn. rewrite Hv. eauto.
Qed.

Lemma size_and_url_readable flds key :
  readable_res flds key -> exists su, size_and_url flds key = Ok su.
Proof.
  intros Hr. unfold size_and_url.
  destruct (flds !! key) as [entry|] eqn:E; [|eauto].
  destruct (Py.truthy entry) eqn:Et; [|eauto].
  destruct (Hr entry E Et) as (m & mv & sz & url & -> & Hv & Hsz & Hurl).
  cbn. rewrite Hv. cbn. rewrite Hsz, Hurl. cbn. eauto.
Qed.

Lemma value_or_none_absent flds key v :
  value_or_none flds key = Ok v -> flds !! key = None -> v = JNull.
Proof. unfold value_or_none. intros H E. rewrite E in H. congruence. Qed.

Lemma size_and_url_false flds key su entry :
  size_and_url flds key = Ok su -> flds !! key = Some entry ->
  Py.truthy entry = false -> su = (JNull, JNull).
Proof.
  unfold size_and_url. intros H E Et. rewrite E, Et in H. congruence.
Qed.

(** What a version that was built is made of. *)
Lemma build_version_inv p prefix kind fn v :
  item_type p = Ok kind -> filename p = Ok fn ->
  build_version p prefix = Ok v ->
  value_or_none (master_fields p) (prefix ++ "Width") = Ok (v_width v)
  /\ value_or_none (master_fields p) (prefix ++ "Height") = Ok (v_height v)
  /\ size_and_url (master_fields p) (prefix ++ "Res") = Ok (v_size v, v_url v)
  /\ value_or_none (master_fields p) (prefix ++ "FileType") = Ok (v_type v)
  /\ v_filename v = version_filename kind (v_type v) fn.
Proof.
  intros Hk Hf. unfold build_version. rewrite Hf, Hk. cbn.
  destruct (value_or_none _ (prefix ++ "Width")) as [w|]; [cbn | discriminate].
  destruct (value_or_none _ (prefix ++ "Height")) as [h|]; [cbn | discriminate].
  destruct (size_and_url _ _) as [[sz url]|]; [cbn | discriminate].
  destruct (value_or_none _ (prefix ++ "FileType")) as [t|]; [cbn | discriminate].
  intros [= <-]. cbn. repeat split; reflexivity.
Qed.

Lemma build_version_readable p prefix kind fn :
  item_type p = Ok kind -> filename p = Ok fn ->
  readable_version p prefix ->
  exists v, build_version p prefix = Ok v.
Proof.
  intros Hk Hf (Hw & Hh & Ht & Hr). unfold build_version. rewrite Hf, Hk. cbn.
  destruct (value_or_none_readable _ _ Hw) as [w ->].
  destruct (value_or_none_readable _ _ Hh) as [h ->].
  destruct (size_and_url_readable _ _ Hr) as [su ->].
  destruct (value_or_none_readable _ _ Ht) as [t ->].
  cbn. eauto.
Qed.

(** The entries of a mapping that was filled without an exception. *)
Lemma versions_fill_inv p table :
  forall acc vs, versions_fill p table acc = (vs, None) ->
  (forall key, is_Some (vs !! key) <->
     is_Some (acc !! key)
     \/ exists prefix, In (key, prefix) table
          /\ has_field p (prefix ++ "Res") = true)
  /\ (forall key v, vs !! key = Some v ->
        acc !! key = Some v
        \/ exists prefix, In (key, prefix) table
             /\ has_field p (prefix ++ "Res") = true
             /\ build_version p prefix = Ok v).
Proof.
  induction table as [|[k pre] rest IH]; intros acc vs; cbn [versions_fill].
  - intros [= <-]. split.
    + intros key. split; [auto|]. intros [H|(prefix & [] & _)]. exact H.
    + auto.
  - destruct (has_field p (pre ++ "Res")) eqn:Eh.
    + destruct (build_version p pre) as [v0|] eqn:Eb; [|discriminate].
      intros Hfill. destruct (IH _ _ Hfill) as [IHd IHv]. split.
      * intros key. rewrite IHd. destruct (decide (k = key)) as [->|Hne].
        -- rewrite lookup_insert_eq. split; intros _.
           ++ right. exists pre. split; [left; reflexivity | exact Eh].
           ++ left. eauto.
        -- rewrite lookup_insert_ne by exact Hne. split.
           ++ intros [H|(prefix & Hin & Hf)]; [auto|].
              right. exists prefix. split; [right; exact Hin | exact Hf].
           ++ intros [H|(prefix & [[= -> ->]|Hin] & Hf)]; [auto | congruence |].
              right. eauto.
      * intros key v Hv. destruct (IHv key v Hv) as [Ha|(prefix & Hin & Hf & Hb)].
        -- destruct (decide (k = key)) as [->|Hne].
           ++ rewrite lookup_insert_eq in Ha. injection Ha as <-.
              right. exists pre. repeat split; [left; reflexivity | exact Eh | exact Eb].
           ++ rewrite lookup_insert_ne in Ha by exact Hne. auto.
        -- right. exists prefix. repeat split; [right; exact Hin | exact Hf | exact Hb].
    + intros Hfill. destruct (IH _ _ Hfill) as [IHd IHv]. split.
      * intros key. rewrite IHd. split.
        -- intros [H|(prefix & Hin & Hf)]; [auto|].
           right. exists prefix. split; [right; exact Hin | exact Hf].
        -- intros [H|(prefix & [[= -> ->]|Hin] & Hf)]; [auto | congruence |].
           right. eauto.
      * intros key v Hv. destruct (IHv key v Hv) as [Ha|(prefix & Hin & Hf & Hb)];
          [auto|].
        right. exists prefix. repeat split; [right; exact Hin | exact Hf | exact Hb].
Qed.

(** The loop raises nothing when every version it includes can be built. *)
Lemma versions_fill_total p table :
  (forall key prefix, In (key, prefix) table ->
     has_field p (prefix ++ "Res") = true ->
     exists v, build_version p prefix = Ok v) ->
  forall acc, exists vs, versions_fill p table acc = (vs, None).
Proof.
  induction table as [|[k pre] rest IH]; intros Hb acc; cbn [versions_fill].
  - eauto.
  - assert (Hrest : forall key prefix, In (key, prefix) rest ->
              has_field p (prefix ++ "Res") = true ->
              exists v, build_version p prefix = Ok v).
    { intros key prefix Hin. apply (Hb key prefix). right. exact Hin. }
    destruct (has_field p (pre ++ "Res")) eqn:Eh; [|apply (IH Hrest)].
    destruct (Hb k pre (or_introl eq_refl) Eh) as [v ->]. apply (IH Hrest).
Qed.

Lemma versions_first p :
  versions_unset p = true -> versions p = versions_compute p.
Proof. intros H. unfold versions. rewrite H. reflexivity. Qed.

Lemma versions_compute_ok p kind p' vs :
  item_type p = Ok kind ->
  versions_compute p = (p', Ok vs) ->
  p' = set_versions p vs
  /\ versions_fill p (typed_version_lookup kind) ∅ = (vs, None).
Proof.
  intros Hk. unfold versions_compute, typed_version_lookup. rewrite Hk.
  destruct (versions_fill p _ ∅) as [vs' [e|]]; [discriminate|].
  intros [= <- <-]. split; reflexivity.
Qed.

(** A mapping that is stored and not empty is returned as it is. *)
Lemma versions_cached p vs :
  _versions p = Some vs -> size vs <> 0 -> versions p = (p, Ok vs).
Proof.
  intros Hv Hs. unfold versions, versions_unset. rewrite Hv.
  destruct (Nat.eqb_spec (size vs) 0); [contradiction | reflexivity].
Qed.

End Versions.

Section StoredVersions.

(** The entries written by the loop, whether or not it ran to its end. *)
Lemma versions_fill_entries p table :
  forall acc vs e, versions_fill p table acc = (vs, e) ->
  forall key v, vs !! key = Some v ->
    acc !! key = Some v
    \/ exists prefix, In (key, prefix) table
         /\ has_field p (prefix ++ "Res") = true
         /\ build_version p prefix = Ok v.
Proof.
  induction table as [|[k pre] rest IH]; intros acc vs e; cbn [versions_fill].
  - intros [= <- _]. auto.
  - destruct (has_field p (pre ++ "Res")) eqn:Eh.
    + destruct (build_version p pre) as [v0|e0] eqn:Eb.
      * intros Hfill key v Hv.
        destruct (IH _ _ _ Hfill key v Hv) as [Ha|(prefix & Hin & Hf & Hb)].
        -- destruct (decide (k = key)) as [->|Hne].
           ++ rewrite lookup_insert_eq in Ha. injection Ha as <-.
              right. exists pre. split; [left; reflexivity|]. split; assumption.
           ++ rewrite lookup_insert_ne in Ha by exact Hne. auto.
        -- right. exists prefix. split; [right; exact Hin|]. split; assumption.
      * intros [= <- _]. auto.
    + intros Hfill key v Hv.
      destruct (IH _ _ _ Hfill key v Hv) as [Ha|(prefix & Hin & Hf & Hb)]; [auto|].
      right. exists prefix. split; [right; exact Hin|]. split; assumption.
Qed.

(** The accessors read the master record only. *)
Context (p q : PhotoAsset) (Hmaster : _master_record p = _master_record q).

Lemma item_type_master : item_type p = item_type q.
Proof.
  unfold item_type, item_type_tag, master_fields. rewrite Hmaster. reflexivity.
Qed.

Lemma filename_master : filename p = filename q.
Proof.
  unfold filename, synthetic_filename, item_type_extension, item_type_tag,
    id, master_fields.
  rewrite Hmaster. reflexivity.
Qed.

Lemma has_field_master key : has_field p key = has_field q key.
Proof. unfold has_field, master_fields. rewrite Hmaster. reflexivity. Qed.

Lemma build_version_master prefix : build_version p prefix = build_version q prefix.
Proof.
  unfold build_version. rewrite filename_master, item_type_master.
  unfold master_fields. rewrite Hmaster. reflexivity.
Qed.

Lemma versions_fill_master table :
  forall acc, versions_fill p table acc = versions_fill q table acc.
Proof.
  induction table as [|[k pre] rest IH]; intros acc; [reflexivity|].
  cbn [versions_fill]. rewrite has_field_master, build_version_master.
  destruct (has_field q (pre ++ "Res")); [|apply IH].
  destruct (build_version q pre); [apply IH | reflexivity].
Qed.

End StoredVersions.

Section Invariant.

Lemma versions_invariant_init svc master_record asset_record :
  versions_invariant (PhotoAsset_init svc master_record asset_record).
Proof. intros vs key v [=]. Qed.

Lemma versions_invariant_compute p :
  versions_invariant (fst (versions_compute p)).
Proof.
  unfold versions_compute.
  destruct (item_type p) as [kind|e] eqn:Hk.
  - fold (typed_version_lookup kind).
    destruct (versions_fill p (typed_version_lookup kind) ∅) as [vs0 e] eqn:Hfill.
    assert (Hinv : versions_invariant (set_versions p vs0)).
    { intros vs key v [= <-] Hv.
      destruct (versions_fill_entries p _ _ _ _ Hfill key v Hv)
        as [He|(prefix & Hin & Hf & Hb)].
      - rewrite lookup_empty in He. discriminate.
      - exists kind, prefix.
        rewrite (item_type_master (set_versions p vs0) p eq_refl).
        rewrite (has_field_master (set_versions p vs0) p eq_refl).
        rewrite (build_version_master (set_versions p vs0) p eq_refl).
        repeat split; assumption. }
    destruct e; exact Hinv.
  - intros vs key v [= <-] Hv. rewrite lookup_empty in Hv. discriminate.
Qed.

(** An access keeps the invariant. *)
Lemma versions_invariant_step p :
  versions_invariant p -> versions_invariant (fst (versions p)).
Proof.
  intros Hinv. unfold versions.
  destruct (versions_unset p); [apply versions_invariant_compute|].
  destruct (_versions p); [exact Hinv | apply versions_invariant_compute].
Qed.

(** The mapping an access returns is the one stored afterwards. *)
Lemma versions_returns_stored p p' vs :
  versions p = (p', Ok vs) ->
  _versions p' = Some vs /\ _master_record p' = _master_record p.
Proof.
  unfold versions.
  assert (Hc : versions_compute p = (p', Ok vs) ->
               _versions p' = Some vs /\ _master_record p' = _master_record p).
  { unfold versions_compute. destruct (item_type p); [|discriminate].
    destruct (versions_fill p _ ∅) as [vs0 [e|]]; [discriminate|].
    intros [= <- <-]. split; reflexivity. }
  destruct (versions_unset p); [exact Hc|].
  destruct (_versions p) eqn:E; [|exact Hc].
  intros [= <- <-]. split; [exact E | reflexivity].
Qed.

End Invariant.

Section VersionsOfEntity.

(** Every entry of the mapping an access returns was built for its key. *)
Lemma versions_entry p p' vs key v :
  versions_invariant p ->
  versions p = (p', Ok vs) -> vs !! key = Some v ->
  exists kind prefix,
    item_type p = Ok kind
    /\ In (key, prefix) (typed_version_lookup kind)
    /\ has_field p (prefix ++ "Res") = true
    /\ build_version p prefix = Ok v.
Proof.
  intros Hinv Hv Hkey.
  pose proof (versions_invariant_step p Hinv) as Hinv'. rewrite Hv in Hinv'.
  destruct (versions_returns_stored p p' vs Hv) as [Hstored Hmaster].
  destruct (Hinv' vs key v Hstored Hkey) as (kind & prefix & Hk & Hin & Hf & Hb).
  exists kind, prefix.
  rewrite <- (item_type_master p' p Hmaster).
  rewrite <- (has_field_master p' p Hmaster).
  rewrite <- (build_version_master p' p Hmaster).
  repeat split; assumption.
Qed.

(** A second access gives the mapping of the first. *)
Lemma versions_again p vs :
  versions p = (set_versions p vs, Ok vs) ->
  versions (set_versions p vs) = (set_versions p vs, Ok vs).
Proof.
  intros Hv. destruct (Nat.eqb_spec (size vs) 0) as [E|E].
  - assert (Hu : versions_unset (set_versions p vs) = true).
    { unfold versions_unset. cbn. rewrite E. reflexivity. }
    rewrite (versions_first _ Hu).
    assert (Hc : versions_compute p = (set_versions p vs, Ok vs)).
    { revert Hv. unfold versions, versions_unset.
      destruct (_versions p) as [vs0|] eqn:E0; [|trivial].
      destruct (Nat.eqb_spec (size vs0) 0) as [|Hne]; [trivial|].
      intros [= _ <-]. contradiction. }
    revert Hc. unfold versions_compute.
    rewrite (item_type_master (set_versions p vs) p eq_refl).
    destruct (item_type p) as [kind|e]; [|discriminate].
    rewrite (versions_fill_master (set_versions p vs) p eq_refl).
    destruct (versions_fill p _ ∅) as [vs1 [e|]]; [discriminate|].
    intros [= <-]. reflexivity.
  - apply versions_cached; [reflexivity | exact E].
Qed.

End VersionsOfEntity.

(** C5, as the code has it: for an entity whose item type and filename
    resolve and whose field entries, where present and true, carry a
    "value" (that of a "...Res" entry with a "size" and a "downloadURL"),
    the versions mapping has a key exactly for the version names of the
    table of the item type (the three video entries for a movie, the six
    photo entries otherwise) whose "...Res" field is on the master record;
    a width, height or type whose field is missing is null, as are the size
    and the url of an empty "...Res" entry, and none of this raises; a
    version whose "...Res" field is absent gets no entry at all; the next
    access returns the same mapping. *)
Theorem versions_keys (p : PhotoAsset) kind fn :
  versions_unset p = true ->
  item_type p = Ok kind ->
  filename p = Ok fn ->
  (forall key prefix, In (key, prefix) (typed_version_lookup kind) ->
     has_field p (prefix ++ "Res") = true -> readable_version p prefix) ->
  let table := if String.eqb kind "movie" then VIDEO_VERSION_LOOKUP
               else PHOTO_VERSION_LOOKUP in
  List.length VIDEO_VERSION_LOOKUP = 3
  /\ List.length PHOTO_VERSION_LOOKUP = 6
  /\ exists vs,
      versions p = (set_versions p vs, Ok vs)
      /\ versions (set_versions p vs) = (set_versions p vs, Ok vs)
      /\ (forall key, is_Some (vs !! key) <->
            exists prefix, In (key, prefix) table
              /\ master_fields p !! (prefix ++ "Res") <> None)
      /\ (forall key v, vs !! key = Some v ->
            exists prefix, In (key, prefix) table
              /\ (master_fields p !! (prefix ++ "Width") = None ->
                  v_width v = JNull)
              /\ (master_fields p !! (prefix ++ "Height") = None ->
                  v_height v = JNull)
              /\ (master_fields p !! (prefix ++ "FileType") = None ->
                  v_type v = JNull)
              /\ (forall entry,
                    master_fields p !! (prefix ++ "Res") = Some entry ->
                    Py.truthy entry = false ->
                    v_size v = JNull /\ v_url v = JNull)).
Proof.
  intros Hu Hk Hf Hr table. split; [reflexivity|]. split; [reflexivity|].
  assert (Hfield : forall prefix,
            has_field p (prefix ++ "Res") = true
            <-> master_fields p !! (prefix ++ "Res") <> None).
  { intros prefix. unfold has_field.
    destruct (master_fields p !! (prefix ++ "Res")); split; congruence. }
  destruct (versions_fill_total p (typed_version_lookup kind)) with (acc := ∅ : gmap string version)
    as [vs Hfill].
  { intros key prefix Hin Hh.
    exact (build_version_readable p prefix kind fn Hk Hf (Hr key prefix Hin Hh)). }
  assert (Hv : versions p = (set_versions p vs, Ok vs)).
  { rewrite (versions_first p Hu). unfold versions_compute. rewrite Hk.
    fold (typed_version_lookup kind). rewrite Hfill. reflexivity. }
  exists vs. split; [exact Hv|]. split; [exact (versions_again p vs Hv)|]. split.
  - intros key. rewrite (proj1 (versions_fill_inv p _ _ _ Hfill) key). split.
    + intros [[v He]|(prefix & Hin & Hh)].
      * rewrite lookup_empty in He. discriminate.
      * exists prefix. split; [exact Hin | apply Hfield; exact Hh].
    + intros (prefix & Hin & Hh). right. exists prefix.
      split; [exact Hin | apply Hfield; exact Hh].
  - intros key v Hkey.
    destruct (proj2 (versions_fill_inv p _ _ _ Hfill) key v Hkey)
      as [He|(prefix & Hin & Hh & Hb)].
    { rewrite lookup_empty in He. discriminate. }
    destruct (build_version_inv p prefix kind fn v Hk Hf Hb)
      as (Hw & Hhe & Hsu & Ht & _).
    exists prefix. split; [exact Hin|]. split; [|split; [|split]].
    + exact (value_or_none_absent _ _ _ Hw).
    + exact (value_or_none_absent _ _ _ Hhe).
    + exact (value_or_none_absent _ _ _ Ht).
    + intros entry He Hfalse.
      pose proof (size_and_url_false _ _ _ entry Hsu He Hfalse) as E.
      split; congruence.
Qed.

Lemma versions_keys_witness :
  exists vs,
    versions SampleVersions.still = (set_versions SampleVersions.still vs, Ok vs)
    /\ versions (set_versions SampleVersions.still vs)
       = (set_versions SampleVersions.still vs, Ok vs)
    /\ is_Some (vs !! "original")
    /\ vs !! "medium" = None
    /\ (forall v, vs !! "original" = Some v -> v_height v = JNull).
Proof.
  destruct (versions_keys SampleVersions.still "image" "IMG_0001.JPG")
    as (_ & _ & vs & Hv & Hagain & Hdom & Hnull).
  - reflexivity.
  - reflexivity.
  - reflexivity.
  - solve_readable_versions.
  - exists vs. split; [exact Hv|]. split; [exact Hagain|]. split; [|split].
    + apply Hdom. exists "resOriginal". split; [left; reflexivity | discriminate].
    + destruct (vs !! "medium") as [v|] eqn:E; [|reflexivity].
      destruct (proj1 (Hdom "medium") (ex_intro _ v E)) as (prefix & Hin & Hp).
      exfalso. cbn in Hin.
      repeat (destruct Hin as [Hin|Hin]; [try discriminate Hin|]);
        try contradiction.
      injection Hin as <-. apply Hp. reflexivity.
    + intros v E. destruct (Hnull "original" v E) as (prefix & Hin & _ & Hh & _).
      cbn in Hin.
      repeat (destruct Hin as [Hin|Hin]; [try discriminate Hin|]);
        try contradiction.
      injection Hin as <-. apply Hh. reflexivity.
Defined.

(** C5, as stated, fails: a size or a url that is missing from a "...Res"
    entry is not null, the access raises. *)
Lemma versions_keys_counterexample :
  let p := SampleVersions.no_url in
  item_type p = Ok "image"
  /\ filename p = Ok "IMG_0004.JPG"
  /\ has_field p "resOriginalRes" = true
  /\ size_and_url (master_fields p) "resOriginalRes"
     = Raise (KeyError "downloadURL")
  /\ versions p = (set_versions p ∅, Raise (KeyError "downloadURL")).
Proof. vm_compute. repeat split. Qed.

(** C6, as the code has it: in the versions of an image, at any access, a
    version whose type is "com.apple.quicktime-movie" has the extension of
    the filename, its last dot with the one or more characters after it,
    replaced: by "_HEVC.MOV" when the filename ends in ".heic" in any case,
    and by ".MOV" otherwise; a filename without an extension (no dot, or a
    dot at the end) is kept, and every filename is of one of these forms; a
    version of another type, and every version of an entity that is not an
    image, keeps the filename. *)
Theorem version_filename_rule (p : PhotoAsset) kind fn p' vs key v :
  versions_invariant p ->
  item_type p = Ok kind ->
  filename p = Ok fn ->
  versions p = (p', Ok vs) ->
  vs !! key = Some v ->
  (kind = "image" -> v_type v = JStr quicktime_movie ->
     (Text.endswith (Text.lower fn) ".heic" = true ->
        exists stem ext, fn = stem ++ "." ++ ext /\ Text.lower ext = "heic"
          /\ v_filename v = stem ++ "_HEVC.MOV")
     /\ (Text.endswith (Text.lower fn) ".heic" = false ->
           forall stem ext, fn = stem ++ "." ++ ext ->
             Text.nonempty ext = true -> Text.has_dot ext = false ->
             v_filename v = stem ++ ".MOV")
     /\ (Text.has_dot fn = false \/ (exists stem, fn = stem ++ ".") ->
           v_filename v = fn))
  /\ (Text.has_dot fn = false
      \/ (exists stem, fn = stem ++ ".")
      \/ exists stem ext, fn = stem ++ "." ++ ext
           /\ Text.nonempty ext = true /\ Text.has_dot ext = false)
  /\ (v_type v <> JStr quicktime_movie -> v_filename v = fn)
  /\ (kind <> "image" -> v_filename v = fn).
Proof.
  intros Hinv Hk Hf Hv Hkey.
  destruct (versions_entry p p' vs key v Hinv Hv Hkey)
    as (kind' & prefix & Hk' & _ & _ & Hb).
  assert (kind' = kind) as -> by congruence.
  destruct (build_version_inv p prefix kind fn v Hk Hf Hb)
    as (_ & _ & _ & _ & Hname).
  split; [|split; [|split]].
  - intros -> Ht. split; [|split].
    + intros Hheic. unfold version_filename in Hname. rewrite Ht in Hname.
      change (String.eqb "image" "image"
              && Py.is_str quicktime_movie (JStr quicktime_movie))
        with true in Hname.
      cbn match in Hname. rewrite Hheic in Hname.
      destruct (sub_extension_heic "_HEVC.MOV" fn Hheic)
        as (stem & ext & Hfn & Hext & Hsub).
      exists stem, ext. repeat split; [exact Hfn | exact Hext | congruence].
    + intros Hheic stem ext -> Hne Hnd.
      unfold version_filename in Hname. rewrite Ht in Hname.
      change (String.eqb "image" "image"
              && Py.is_str quicktime_movie (JStr quicktime_movie))
        with true in Hname.
      cbn match in Hname. rewrite Hheic in Hname. rewrite Hname.
      apply sub_extension_ext; assumption.
    + intros Hkept. rewrite Hname. apply version_filename_kept. exact Hkept.
  - destruct (last_dot_split fn) as [Hnd|(stem & ext & Hfn & Hext)];
      [left; exact Hnd|].
    right. destruct ext as [|c ext].
    + left. exists stem. exact Hfn.
    + right. exists stem, (String c ext). repeat split; assumption.
  - intros Ht. rewrite Hname. unfold version_filename.
    assert (E : Py.is_str quicktime_movie (v_type v) = false).
    { destruct (v_type v) as [| | |t| |]; try reflexivity.
      cbn. destruct (String.eqb_spec t quicktime_movie); [congruence | reflexivity]. }
    rewrite E, andb_false_r. reflexivity.
  - intros Hkind. rewrite Hname. unfold version_filename.
    destruct (String.eqb_spec kind "image"); [contradiction | reflexivity].
Qed.

Lemma version_filename_rule_witness :
  let p := SampleVersions.live "IMG_0001.HEIC" in
  exists vs v,
    snd (versions p) = Ok vs
    /\ vs !! "originalVideo" = Some v
    /\ exists stem ext,
         "IMG_0001.HEIC" = stem ++ "." ++ ext /\ Text.lower ext = "heic"
         /\ v_filename v = stem ++ "_HEVC.MOV".
Proof.
  intros p.
  pose (vs := match snd (versions p) with Ok vs => vs | Raise _ => ∅ end).
  pose (v := match vs !! "originalVideo" with
             | Some v => v
             | None => {| v_filename := ""; v_width := JNull; v_height := JNull;
                          v_size := JNull; v_url := JNull; v_type := JNull |}
             end).
  assert (H1 : versions p = (fst (versions p), Ok vs)) by (vm_compute; reflexivity).
  assert (H2 : vs !! "originalVideo" = Some v) by (vm_compute; reflexivity).
  exists vs, v. split; [vm_compute; reflexivity|]. split; [exact H2|].
  destruct (version_filename_rule p "image" "IMG_0001.HEIC"
              (fst (versions p)) vs "originalVideo" v) as [H _];
    [apply versions_invariant_init | vm_compute; reflexivity
    | vm_compute; reflexivity | exact H1 | exact H2 |].
  destruct H as [Hheic _]; [reflexivity | vm_compute; reflexivity |].
  apply Hheic. vm_compute. reflexivity.
Defined.

(** C6, as stated, fails: the movie of a live photo whose filename has no
    extension keeps the filename, it gets no ".MOV". *)
Lemma version_filename_rule_counterexample :
  let p := SampleVersions.live "IMG_0006" in
  exists vs v,
    item_type p = Ok "image"
    /\ filename p = Ok "IMG_0006"
    /\ snd (versions p) = Ok vs
    /\ vs !! "originalVideo" = Some v
    /\ v_type v = JStr quicktime_movie
    /\ v_filename v = "IMG_0006"
    /\ Text.endswith (v_filename v) ".MOV" = false.
Proof.
  intros p.
  pose (vs := match snd (versions p) with Ok vs => vs | Raise _ => ∅ end).
  pose (v := match vs !! "originalVideo" with
             | Some v => v
             | None => {| v_filename := ""; v_width := JNull; v_height := JNull;
                          v_size := JNull; v_url := JNull; v_type := JNull |}
             end).
  exists vs, v.
  split; [vm_compute; reflexivity|]. split; [vm_compute; reflexivity|].
  split; [vm_compute; reflexivity|]. split; [vm_compute; reflexivity|].
  split; [vm_compute; reflexivity|]. split; vm_compute; reflexivity.
Qed.

Section Memo.

(** An access that returns the empty mapping leaves the guard of [versions]
    true: the next access computes the mapping again. *)
Lemma versions_empty_recomputed p p1 :
  versions p = (p1, Ok ∅) ->
  versions_unset p1 = true /\ versions p1 = versions_compute p1.
Proof.
  intros Hv. destruct (versions_returns_stored p p1 ∅ Hv) as [Hstored _].
  assert (Hu : versions_unset p1 = true).
  { unfold versions_unset. rewrite Hstored, map_size_empty. reflexivity. }
  split; [exact Hu | exact (versions_first p1 Hu)].
Qed.

(** [download] keeps what holds of the stored mapping. *)
Lemma download_invariant p version_name :
  versions_invariant p ->
  versions_invariant (fst (fst (download p version_name))).
Proof.
  intros Hinv. unfold download.
  pose proof (versions_invariant_step p Hinv) as H1.
  destruct (versions p) as [p1 [vs|e]]; [|exact H1].
  destruct (vs !! version_name); [|exact H1].
  pose proof (versions_invariant_step p1 H1) as H2.
  destruct (versions p1) as [p2 [vs'|e]]; [|exact H2].
  destruct (vs' !! version_name); exact H2.
Qed.

End Memo.

(** C8, on the code: an entity none of whose renditions is present gets an
    empty mapping at its first access, the guard [not self._versions] still
    holds afterwards, and the second access computes the mapping anew
    instead of returning the one that was stored. *)
Theorem versions_empty_not_cached :
  exists p1,
    versions SampleVersions.bare = (p1, Ok ∅)
    /\ _versions p1 = Some ∅
    /\ versions_unset p1 = true
    /\ versions p1 = versions_compute p1.
Proof.
  exists (set_versions SampleVersions.bare ∅).
  assert (Hv : versions SampleVersions.bare
               = (set_versions SampleVersions.bare ∅, Ok ∅))
    by (vm_compute; reflexivity).
  split; [exact Hv|]. split; [reflexivity|].
  exact (versions_empty_recomputed _ _ Hv).
Qed.

(** C10: for every entity, [download] asked for a version that is not a key
    of the versions mapping returns [None], raises nothing and sends no
    request. *)
Theorem download_unknown_version (p p1 : PhotoAsset) vs version_name :
  versions p = (p1, Ok vs) ->
  vs !! version_name = None ->
  download p version_name = (p1, [], Ok None).
Proof.
  intros Hv Hkey. unfold download. rewrite Hv, Hkey. reflexivity.
Qed.

Lemma download_unknown_version_witness :
  download SampleVersions.still "medium"
  = (set_versions SampleVersions.still
       {[ "original" :=
            {| v_filename := "IMG_0001.JPG"; v_width := JNum 4032;
               v_height := JNull; v_size := JNum 10;
               v_url := JStr "https://cdn/original";
               v_type := JStr "public.jpeg" |} ]},
     [], Ok None).
Proof.
  apply (download_unknown_version SampleVersions.still _
           {[ "original" :=
                {| v_filename := "IMG_0001.JPG"; v_width := JNum 4032;
                   v_height := JNull; v_size := JNum 10;
                   v_url := JStr "https://cdn/original";
                   v_type := JStr "public.jpeg" |} ]});
    vm_compute; reflexivity.
Defined.

(** ** The paginator *)

Section Pages.

Lemma is_asset_not_master rec : is_asset rec = true -> is_master rec = false.
Proof.
  unfold is_asset, is_master. intros ->%String.eqb_eq. reflexivity.
Qed.

Lemma split_records_masters records :
  forall assets masters assets' masters',
  split_records records assets masters = Ok (assets', masters') ->
  masters' = (masters ++ masters_of records)%list.
Proof.
  induction records as [|rec rest IH]; intros assets masters assets' masters';
    cbn [split_records masters_of List.filter].
  - intros [= _ <-]. rewrite app_nil_r. reflexivity.
  - fold (is_asset rec). fold (is_master rec). fold (masters_of rest).
    destruct (is_asset rec) eqn:Ea.
    + rewrite (is_asset_not_master rec Ea).
      destruct (master_ref rec) as [[k|]|]; cbn; [apply IH | apply IH | discriminate].
    + destruct (is_master rec).
      * intros H. rewrite (IH _ _ _ _ H), <- app_assoc. reflexivity.
      * apply IH.
Qed.

(** The asset stored under a key is there from the start or comes from an
    asset record of the page that refers to that key. *)
Lemma split_records_lookup records :
  forall assets masters assets' masters',
  split_records records assets masters = Ok (assets', masters') ->
  forall k,
    (assets' !! k = None <->
     assets !! k = None
     /\ forall rec, In rec records -> is_asset rec = true ->
          master_ref rec <> Ok (Some k)).
Proof.
  induction records as [|rec rest IH]; intros assets masters assets' masters';
    cbn [split_records].
  - intros [= <- _] k. split; [intros H; split; [exact H | intros _ []] | tauto].
  - fold (is_asset rec). fold (is_master rec).
    destruct (is_asset rec) eqn:Ea.
    + destruct (master_ref rec) as [[k0|]|] eqn:Em; cbn; [| |discriminate].
      * intros H k. rewrite (IH _ _ _ _ H k).
        destruct (decide (k0 = k)) as [->|Hne].
        -- rewrite lookup_insert_eq. split; [intros [[=] _]|].
           intros [_ Hall]. exfalso. apply (Hall rec); [left; reflexivity | exact Ea | exact Em].
        -- rewrite lookup_insert_ne by exact Hne. split.
           ++ intros [Hk Hall]. split; [exact Hk|].
              intros rec' [<-|Hin] Ha; [congruence | apply Hall; assumption].
           ++ intros [Hk Hall]. split; [exact Hk|].
              intros rec' Hin. apply Hall. right. exact Hin.
      * intros H k. rewrite (IH _ _ _ _ H k). split.
        -- intros [Hk Hall]. split; [exact Hk|].
           intros rec' [<-|Hin] Ha; [congruence | apply Hall; assumption].
        -- intros [Hk Hall]. split; [exact Hk|].
           intros rec' Hin. apply Hall. right. exact Hin.
    + assert (Hrest : forall A M A' M',
                split_records rest A M = Ok (A', M') ->
                forall k, A' !! k = None <->
                  A !! k = None /\ forall rec', In rec' (rec :: rest) ->
                    is_asset rec' = true -> master_ref rec' <> Ok (Some k)).
      { intros A M A' M' H k. rewrite (IH _ _ _ _ H k). split.
        - intros [Hk Hall]. split; [exact Hk|].
          intros rec' [<-|Hin] Ha; [congruence | apply Hall; assumption].
        - intros [Hk Hall]. split; [exact Hk|].
          intros rec' Hin. apply Hall. right. exact Hin. }
      destruct (is_master rec); apply Hrest.
Qed.

Lemma split_records_last k records :
  forall assets masters assets' masters',
  split_records records assets masters = Ok (assets', masters') ->
  assets' !! k
  = fold_left (fun kept rec => if refers_to k rec then Some rec else kept)
      records (assets !! k).
Proof.
  induction records as [|rec rest IH]; intros assets masters assets' masters';
    cbn [split_records fold_left].
  - intros [= <- _]. reflexivity.
  - unfold refers_to at 2. fold (is_asset rec). fold (is_master rec).
    destruct (is_asset rec) eqn:Ea; cbn [andb].
    + destruct (master_ref rec) as [[k0|]|] eqn:Em; cbn; [| apply IH | discriminate].
      intros H. rewrite (IH _ _ _ _ H).
      destruct (String.eqb_spec k0 k) as [->|Hne].
      * rewrite lookup_insert_eq. reflexivity.
      * rewrite lookup_insert_ne by exact Hne. reflexivity.
    + destruct (is_master rec); apply IH.
Qed.

Lemma split_records_readable records :
  Forall readable_ref records ->
  forall assets masters,
  exists assets',
    split_records records assets masters
    = Ok (assets', (masters ++ masters_of records)%list).
Proof.
  induction 1 as [|rec rest Hrec _ IH]; intros assets masters;
    cbn [split_records masters_of List.filter].
  - exists assets. rewrite app_nil_r. reflexivity.
  - fold (is_asset rec). fold (is_master rec). fold (masters_of rest).
    destruct (is_asset rec) eqn:Ea.
    + rewrite (is_asset_not_master rec Ea).
      destruct (Hrec Ea) as [[k0|] ->]; cbn; apply IH.
    + destruct (is_master rec); [|apply IH].
      destruct (IH assets (masters ++ [rec])%list) as [assets' ->].
      exists assets'. rewrite <- app_assoc. reflexivity.
Qed.

(** A page that partitions has asset records with a readable masterRef
    only. *)
Lemma split_records_ok_readable records :
  forall assets masters am,
  split_records records assets masters = Ok am -> Forall readable_ref records.
Proof.
  induction records as [|rec rest IH]; intros assets masters am;
    cbn [split_records]; [constructor|].
  fold (is_asset rec).
  destruct (is_asset rec) eqn:Ea.
  - destruct (master_ref rec) as [r|e] eqn:Em; cbn; [|discriminate].
    intros H. constructor.
    + intros _. exists r. exact Em.
    + destruct r; exact (IH _ _ _ H).
  - intros H. constructor; [intros Ha; congruence|].
    destruct (String.eqb (recordType rec) "CPLMaster"); exact (IH _ _ _ H).
Qed.

(** An asset record that refers to [k] leaves the page with an asset kept
    for [k]; the asset kept is a record of the page that refers to [k]. *)
Lemma last_asset_some k records :
  forall kept,
  (kept <> None \/ exists rec, In rec records /\ refers_to k rec = true) ->
  fold_left (fun kept rec => if refers_to k rec then Some rec else kept)
    records kept <> None.
Proof.
  induction records as [|rec0 rest IH]; intros kept; cbn [fold_left].
  - intros [H|(rec & [] & _)]. exact H.
  - intros [H|(rec & [<-|Hin] & Hr)]; apply IH.
    + destruct (refers_to k rec0); [left; discriminate | left; exact H].
    + rewrite Hr. left. discriminate.
    + right. eauto.
Qed.

Lemma last_asset_in k records :
  forall kept rec,
  fold_left (fun kept rec => if refers_to k rec then Some rec else kept)
    records kept = Some rec ->
  kept = Some rec \/ (In rec records /\ refers_to k rec = true).
Proof.
  induction records as [|rec0 rest IH]; intros kept rec; cbn [fold_left].
  - auto.
  - intros H. destruct (IH _ _ H) as [Hk|[Hin Hr]].
    + destruct (refers_to k rec0) eqn:E0; [|auto].
      injection Hk as <-. right. split; [left; reflexivity | exact E0].
    + right. split; [right; exact Hin | exact Hr].
Qed.

(** Every master has its asset: one entity per master, in order. *)
Lemma yield_assets_matched svc assets masters :
  (forall m, In m masters -> assets !! recordName m <> None) ->
  exists ps,
    yield_assets svc assets masters = (ps, None)
    /\ map _master_record ps = masters
    /\ Forall (fun p => assets !! recordName (_master_record p)
                        = Some (_asset_record p)
                        /\ _versions p = None) ps.
Proof.
  induction masters as [|m rest IH]; intros Hall; cbn [yield_assets].
  - exists []. repeat split. constructor.
  - destruct (assets !! recordName m) as [asset|] eqn:Ea.
    + destruct IH as (ps & -> & Hmap & Hps).
      { intros m' Hin. apply Hall. right. exact Hin. }
      eexists. split; [reflexivity|]. split.
      * cbn. rewrite Hmap. reflexivity.
      * constructor; [|exact Hps]. cbn. split; [exact Ea | reflexivity].
    + exfalso. apply (Hall m); [left; reflexivity | exact Ea].
Qed.

(** Some master has no asset: the entities before the first such master,
    then the lookup failure. *)
Lemma yield_assets_unmatched svc assets masters m :
  In m masters -> assets !! recordName m = None ->
  exists ps m',
    yield_assets svc assets masters = (ps, Some (KeyError (recordName m')))
    /\ In m' masters /\ assets !! recordName m' = None
    /\ (List.length ps < List.length masters)%nat.
Proof.
  induction masters as [|m0 rest IH]; intros Hin Hm; [destruct Hin|].
  cbn [yield_assets].
  destruct (assets !! recordName m0) as [asset|] eqn:Ea.
  - destruct Hin as [->|Hin]; [congruence|].
    destruct (IH Hin Hm) as (ps & m' & -> & Hin' & Hm' & Hlen).
    eexists _, m'. split; [reflexivity|]. split; [right; exact Hin'|].
    split; [exact Hm'|]. cbn. lia.
  - exists [], m0. split; [reflexivity|]. split; [left; reflexivity|].
    split; [exact Ea|]. cbn. lia.
Qed.

(** One iteration of the loop on a page whose masters all have an asset. *)
Lemma photos_loop_page a offset retries records net assets masters :
  split_records records ∅ [] = Ok (assets, masters) ->
  masters <> [] ->
  (forall m, In m masters -> assets !! recordName m <> None) ->
  exists ps,
    map _master_record ps = masters
    /\ Forall (fun p => assets !! recordName (_master_record p)
                        = Some (_asset_record p)
                        /\ _versions p = None) ps
    /\ photos_loop a offset retries (Response (Some records) :: net)
       = ((Request offset :: map Yield ps
            ++ fst (photos_loop a (advance a offset (List.length masters)) 0 net))%list,
          snd (photos_loop a (advance a offset (List.length masters)) 0 net)).
Proof.
  intros Hsplit Hne Hall.
  destruct (yield_assets_matched (service a) assets masters Hall)
    as (ps & Hy & Hmap & Hps).
  exists ps. split; [exact Hmap|]. split; [exact Hps|].
  cbn [photos_loop]. rewrite Hsplit.
  destruct (Nat.eqb_spec (List.length masters) 0) as [E|_].
  - destruct masters; [contradiction | discriminate].
  - rewrite Hy. destruct (photos_loop a _ 0 net). reflexivity.
Qed.

Lemma photos_loop_empty_page a offset retries records net assets :
  split_records records ∅ [] = Ok (assets, []) ->
  photos_loop a offset retries (Response (Some records) :: net)
  = ([Request offset], Exhausted).
Proof. intros Hsplit. cbn [photos_loop]. rewrite Hsplit. reflexivity. Qed.

Lemma photos_loop_first_request a offset retries reply net :
  exists evs,
    fst (photos_loop a offset retries (reply :: net)) = Request offset :: evs.
Proof.
  cbn [photos_loop]. destruct reply as [ex|ex|[records|]].
  - destruct (exception_handler a) as [h|]; [|eauto].
    destruct (h ex (S retries)); [eauto|].
    destruct (photos_loop a offset (S retries) net). eauto.
  - eauto.
  - destruct (split_records records ∅ []) as [[assets masters]|]; [|eauto].
    destruct (List.length masters =? 0)%nat; [eauto|].
    destruct (yield_assets _ _ _) as [ps [ex|]]; [eauto|].
    destruct (photos_loop a _ 0 net). eauto.
  - eauto.
Qed.

End Pages.
Section Start.

Lemma photos_ascending sys_maxsize a count_reply net :
  descending a = false ->
  photos sys_maxsize a count_reply net = photos_loop a 0 0 net.
Proof. intros H. unfold photos. rewrite H. reflexivity. Qed.

Lemma photos_descending sys_maxsize a count_reply a' count net :
  descending a = true -> len sys_maxsize a count_reply = (a', Ok count) ->
  photos sys_maxsize a count_reply net = photos_loop a (count - 1) 0 net.
Proof.
  intros H Hlen. unfold photos. rewrite H, Hlen. reflexivity.
Qed.

(** The count of a fresh album is the item count of the count query, when
    that is a number [len] accepts. *)
Lemma len_fresh sys_maxsize a count :
  _len a = JNull -> (0 <= count <= sys_maxsize)%Z ->
  len sys_maxsize a (Ok (JNum count)) = (set_len a (JNum count), Ok count).
Proof.
  intros Hlen Hc. unfold len, __len__. rewrite Hlen. cbn.
  destruct (Z.ltb_spec count 0); [lia|].
  destruct (Z.ltb_spec sys_maxsize count); [lia | reflexivity].
Qed.

(** A page whose asset records are readable and whose masters are all
    referred to, in terms of what the first loop gathers. *)
Lemma page_partition records :
  Forall readable_ref records ->
  (forall m, In m (masters_of records) ->
     exists rec, In rec records /\ refers_to (recordName m) rec = true) ->
  exists assets,
    split_records records ∅ [] = Ok (assets, masters_of records)
    /\ (forall k, assets !! k = last_asset k records)
    /\ (forall m, In m (masters_of records) ->
          assets !! recordName m <> None).
Proof.
  intros Hread Hall.
  destruct (split_records_readable records Hread ∅ []) as [assets Hsplit].
  cbn [app] in Hsplit.
  assert (Hlast : forall k, assets !! k = last_asset k records).
  { intros k. rewrite (split_records_last k _ _ _ _ _ Hsplit), lookup_empty.
    reflexivity. }
  exists assets. split; [exact Hsplit|]. split; [exact Hlast|].
  intros m Hin. rewrite Hlast. apply last_asset_some. right.
  apply Hall. exact Hin.
Qed.

End Start.

(** C1, as the code has it: in a page whose asset records all carry a
    readable masterRef, with n > 0 master records each of which is referred
    to by an asset record of the page, the generator yields n entities, one
    per master record in the order of the response, each with the last asset
    record that refers to its master, and moves the offset by +n, or by -n
    when the direction is DESCENDING; the first request is sent at offset 0,
    or at count - 1 when the direction is DESCENDING, count being what [len]
    returns: the item count of the count query for a fresh album, when that
    is a number from 0 to [sys.maxsize]. *)
Theorem photos_page (sys_maxsize : Z) (a : PhotoAlbum) offset retries
    records net :
  Forall readable_ref records ->
  masters_of records <> [] ->
  (forall m, In m (masters_of records) ->
     exists rec, In rec records /\ refers_to (recordName m) rec = true) ->
  (exists ps,
      List.length ps = List.length (masters_of records)
      /\ map _master_record ps = masters_of records
      /\ Forall (fun p => last_asset (recordName (_master_record p)) records
                          = Some (_asset_record p)) ps
      /\ forall offset',
           offset' = (if descending a
                      then offset - Z.of_nat (List.length (masters_of records))
                      else offset + Z.of_nat (List.length (masters_of records)))%Z ->
           photos_loop a offset retries (Response (Some records) :: net)
           = ((Request offset :: map Yield ps
                 ++ fst (photos_loop a offset' 0 net))%list,
              snd (photos_loop a offset' 0 net)))
  /\ (forall count_reply reply net',
        descending a = false ->
        exists evs, fst (photos sys_maxsize a count_reply (reply :: net'))
                    = Request 0 :: evs)
  /\ (forall count_reply a' count reply net',
        descending a = true ->
        len sys_maxsize a count_reply = (a', Ok count) ->
        exists evs, fst (photos sys_maxsize a count_reply (reply :: net'))
                    = Request (count - 1) :: evs)
  /\ (forall count,
        _len a = JNull -> (0 <= count <= sys_maxsize)%Z ->
        len sys_maxsize a (Ok (JNum count))
        = (set_len a (JNum count), Ok count)).
Proof.
  intros Hread Hne Hall. split; [|split; [|split]].
  - destruct (page_partition records Hread Hall) as (assets & Hsplit & Hlast & Hm).
    destruct (photos_loop_page a offset retries records net assets
                (masters_of records) Hsplit Hne Hm) as (ps & Hmap & Hps & Hloop).
    exists ps. split; [|split; [|split]].
    + rewrite <- Hmap, length_map. reflexivity.
    + exact Hmap.
    + eapply Forall_impl; [exact Hps|]. intros p [H _].
      rewrite <- Hlast. exact H.
    + intros offset' ->. exact Hloop.
  - intros count_reply reply net' Hd.
    rewrite (photos_ascending sys_maxsize a _ _ Hd).
    apply photos_loop_first_request.
  - intros count_reply a' count reply net' Hd Hlen.
    rewrite (photos_descending sys_maxsize a count_reply a' count _ Hd Hlen).
    apply photos_loop_first_request.
  - intros count. apply len_fresh.
Qed.

Lemma photos_page_witness :
  let a := Scenario.album "DESCENDING" in
  let records := flat_map Scenario.matched_pair [0; 1] in
  exists ps,
    List.length ps = 2
    /\ map id ps = ["m0"; "m1"]
    /\ photos_loop a 4 0 [Response (Some records); Response (Some [])]
       = ((Request 4 :: map Yield ps ++ [Request 2])%list, Exhausted).
Proof.
  intros a records.
  destruct (photos_page Scenario.sys_maxsize a 4 0 records [Response (Some [])])
    as ((ps & Hlen & Hmap & _ & Hloop) & _).
  - repeat constructor; intros Ha; try discriminate Ha;
      eexists; vm_compute; reflexivity.
  - vm_compute. discriminate.
  - intros m Hin. vm_compute in Hin.
    destruct Hin as [<-|[<-|[]]].
    + exists (Sample.asset "a0" "m0").
      split; [left; reflexivity | vm_compute; reflexivity].
    + exists (Sample.asset "a1" "m1").
      split; [right; right; left; reflexivity | vm_compute; reflexivity].
  - exists ps. split; [exact Hlen|]. split.
    + transitivity (map recordName (map _master_record ps)).
      * symmetry. apply List.map_map.
      * rewrite Hmap. vm_compute. reflexivity.
    + rewrite (Hloop 2%Z eq_refl). reflexivity.
Defined.

(** C1, as stated, fails: a page with one master record and no asset record
    for it yields no entity, and neither does a page in which an asset
    record has no masterRef, although its master has its asset. *)
Lemma photos_page_counterexample :
  let records := [Sample.master "m0" []] in
  let run := photos Scenario.sys_maxsize (Scenario.album "ASCENDING")
               (Ok (JNum 1)) [Response (Some records)] in
  let records' := [Sample.asset "a0" "m0"; Sample.master "m0" [];
                   Sample.unreferenced "a1"] in
  let run' := photos Scenario.sys_maxsize (Scenario.album "ASCENDING")
                (Ok (JNum 1)) [Response (Some records')] in
  List.length (masters_of records) = 1
  /\ List.length (Scenario.yields (fst run)) <> List.length (masters_of records)
  /\ run = ([Request 0], Raised (KeyError "m0"))
  /\ List.length (masters_of records') = 1
  /\ run' = ([Request 0], Raised (KeyError "masterRef")).
Proof. vm_compute. repeat split. discriminate. Qed.

Example photos_scenario_250 :
  let run := photos Scenario.sys_maxsize (Scenario.album "DESCENDING")
               (Ok (JNum 250))
               [Scenario.page 0 100; Scenario.page 100 100;
                Scenario.page 200 50; Scenario.page 250 0] in
  Scenario.requests (fst run) = [249; 149; 49; -1]%Z
  /\ List.length (Scenario.yields (fst run)) = 250
  /\ snd run = Exhausted.
Proof. vm_compute. repeat split; reflexivity. Qed.

Section Runs.

Lemma requests_app evs1 evs2 :
  Scenario.requests (evs1 ++ evs2)
  = (Scenario.requests evs1 ++ Scenario.requests evs2)%list.
Proof.
  induction evs1 as [|[o|ex n|p] evs1 IH]; cbn; rewrite ?IH; reflexivity.
Qed.

Lemma yields_app evs1 evs2 :
  Scenario.yields (evs1 ++ evs2)
  = (Scenario.yields evs1 ++ Scenario.yields evs2)%list.
Proof.
  induction evs1 as [|[o|ex n|p] evs1 IH]; cbn; rewrite ?IH; reflexivity.
Qed.

Lemma requests_yield ps : Scenario.requests (map Yield ps) = [].
Proof. induction ps as [|p ps IH]; [reflexivity | exact IH]. Qed.

Lemma yields_yield ps : Scenario.yields (map Yield ps) = ps.
Proof. induction ps as [|p ps IH]; cbn; rewrite ?IH; reflexivity. Qed.

Context (a : PhotoAlbum).

(** A run over pages that all reconcile: the requests go out at the offsets
    the master counts add up to, and the masters of the entities are the
    master records of the pages, in order. *)
Lemma photos_loop_pages pages :
  Forall reconciled pages ->
  forall offset retries net,
  let rest := photos_loop a (final_offset a offset pages) 0 net in
  pages <> [] ->
  Scenario.requests (fst (photos_loop a offset retries (map page_reply pages ++ net)))
  = (page_offsets a offset pages ++ Scenario.requests (fst rest))%list
  /\ map _master_record
       (Scenario.yields
          (fst (photos_loop a offset retries (map page_reply pages ++ net))))
     = (concat (map masters_of pages)
        ++ map _master_record (Scenario.yields (fst rest)))%list
  /\ snd (photos_loop a offset retries (map page_reply pages ++ net)) = snd rest.
Proof.
  induction 1 as [|records pages Hrec Hpages IH]; intros offset retries net rest Hne;
    [contradiction|].
  destruct Hrec as (assets & masters & Hsplit & Hm & Hall).
  pose proof (split_records_masters _ _ _ _ _ Hsplit) as Hmasters.
  cbn [app] in Hmasters.
  destruct (photos_loop_page a offset retries records (map page_reply pages ++ net)
              assets masters Hsplit Hm Hall) as (ps & Hmap & _ & Hloop).
  change (map page_reply (records :: pages) ++ net)%list
    with (Response (Some records) :: (map page_reply pages ++ net))%list.
  rewrite Hloop. cbn [fst snd].
  cbn [Scenario.requests Scenario.yields page_offsets map concat].
  rewrite requests_app, yields_app, requests_yield, yields_yield, map_app, Hmap.
  rewrite <- Hmasters.
  destruct pages as [|records' pages'].
  - cbn [map app page_offsets concat]. subst rest. cbn [final_offset fold_left].
    rewrite <- Hmasters, app_nil_r. repeat split; reflexivity.
  - destruct (IH (advance a offset (List.length masters)) 0 net)
      as (IHr & IHy & IHe); [discriminate|].
    subst rest. cbn [final_offset fold_left] in *. rewrite <- Hmasters.
    rewrite IHr, IHy, IHe, <- app_assoc. repeat split; reflexivity.
Qed.

End Runs.

Section Exhaustion.

(** A run that ends normally has fetched a page without master records. *)
Lemma photos_loop_exhausted a net :
  forall offset retries,
  snd (photos_loop a offset retries net) = Exhausted ->
  exists records assets,
    In (Response (Some records)) net
    /\ split_records records ∅ [] = Ok (assets, []).
Proof.
  induction net as [|reply net IH]; intros offset retries; cbn [photos_loop].
  - discriminate.
  - destruct reply as [ex|ex|[records|]]; [| discriminate | | discriminate].
    + destruct (exception_handler a) as [h|]; [|discriminate].
      destruct (h ex (S retries)); [discriminate|].
      destruct (photos_loop a offset (S retries) net) as [evs e] eqn:E.
      cbn. intros ->.
      destruct (IH offset (S retries)) as (records & assets & Hin & Hs).
      { rewrite E. reflexivity. }
      exists records, assets. split; [right; exact Hin | exact Hs].
    + destruct (split_records records ∅ []) as [[assets masters]|] eqn:Es;
        [|discriminate].
      destruct (Nat.eqb_spec (List.length masters) 0) as [E0|_].
      * intros _. exists records, assets. split; [left; reflexivity|].
        destruct masters; [exact Es | discriminate].
      * destruct (yield_assets _ _ _) as [ps [ex|]]; [discriminate|].
        destruct (photos_loop a _ 0 net) as [evs e] eqn:E.
        cbn. intros ->.
        destruct (IH (advance a offset (List.length masters)) 0)
          as (records' & assets' & Hin & Hs).
        { rewrite E. reflexivity. }
        exists records', assets'. split; [right; exact Hin | exact Hs].
Qed.

End Exhaustion.

(** C2, as the code has it: a page without master records, whose asset
    records (if any) all carry a readable masterRef, yields nothing and ends
    the sequence normally, and a sequence only ends normally on such a page;
    a page of readable asset records with master records that are all
    referred to by an asset record of the page is followed by another
    request, at the offset moved by the number of its masters. *)
Theorem photos_termination (a : PhotoAlbum) offset retries records net :
  Forall readable_ref records ->
  (masters_of records = [] ->
     photos_loop a offset retries (Response (Some records) :: net)
     = ([Request offset], Exhausted))
  /\ (masters_of records <> [] ->
      (forall m, In m (masters_of records) ->
         exists rec, In rec records /\ refers_to (recordName m) rec = true) ->
      forall reply net', net = reply :: net' ->
      exists ps evs,
        ps <> []
        /\ fst (photos_loop a offset retries (Response (Some records) :: net))
           = (Request offset :: map Yield ps
                ++ Request (advance a offset
                              (List.length (masters_of records))) :: evs)%list)
  /\ (forall all_replies offset0 retries0,
        snd (photos_loop a offset0 retries0 all_replies) = Exhausted ->
        exists records',
          In (Response (Some records')) all_replies
          /\ masters_of records' = []
          /\ Forall readable_ref records').
Proof.
  intros Hread. split; [|split].
  - intros Hm.
    destruct (split_records_readable records Hread ∅ []) as [assets Hsplit].
    rewrite Hm in Hsplit.
    exact (photos_loop_empty_page a offset retries records net assets Hsplit).
  - intros Hne Hall reply net' ->.
    destruct (page_partition records Hread Hall) as (assets & Hsplit & _ & Hm).
    destruct (photos_loop_page a offset retries records (reply :: net') assets
                (masters_of records) Hsplit Hne Hm) as (ps & Hmap & _ & Hloop).
    destruct (photos_loop_first_request a
                (advance a offset (List.length (masters_of records))) 0 reply net')
      as [evs Hevs].
    exists ps, evs. split.
    + intros ->. cbn in Hmap. congruence.
    + rewrite Hloop. cbn [fst]. rewrite Hevs. reflexivity.
  - intros all_replies offset0 retries0 Hend.
    destruct (photos_loop_exhausted a all_replies offset0 retries0 Hend)
      as (records' & assets' & Hin & Hsplit).
    exists records'. split; [exact Hin|]. split.
    + pose proof (split_records_masters _ _ _ _ _ Hsplit) as Hm.
      cbn [app] in Hm. symmetry. exact Hm.
    + exact (split_records_ok_readable _ _ _ _ Hsplit).
Qed.

Lemma photos_termination_witness :
  let a := Scenario.album "ASCENDING" in
  photos_loop a 7 0 [Response (Some []); Scenario.page 0 3]
  = ([Request 7], Exhausted)
  /\ exists ps evs,
       ps <> []
       /\ fst (photos_loop a 0 0 [Scenario.page 0 2; Scenario.page 2 1])
          = (Request 0 :: map Yield ps ++ Request 2 :: evs)%list.
Proof.
  intros a. split.
  - refine (proj1 (photos_termination a 7 0 [] [Scenario.page 0 3] _) _);
      [constructor | reflexivity].
  - pose (records := flat_map Scenario.matched_pair (seq 0 2)).
    refine (proj1 (proj2 (photos_termination a 0 0 records [Scenario.page 2 1]
                            _)) _ _ _ _ eq_refl).
    + repeat constructor; intros Ha; try discriminate Ha;
        eexists; vm_compute; reflexivity.
    + vm_compute. discriminate.
    + intros m Hin. vm_compute in Hin.
      destruct Hin as [<-|[<-|[]]].
      * exists (Sample.asset "a0" "m0").
        split; [left; reflexivity | vm_compute; reflexivity].
      * exists (Sample.asset "a1" "m1").
        split; [right; right; left; reflexivity | vm_compute; reflexivity].
Defined.

(** C2, as stated, fails: a page with a master record that has no asset
    record is not followed by another request, and a page without master
    records in which an asset record has no masterRef ends the sequence
    with an exception. *)
Lemma photos_termination_counterexample :
  let records := [Sample.asset "a0" "m0"; Sample.master "m0" [];
                  Sample.master "m1" []] in
  let run := photos_loop (Scenario.album "ASCENDING") 0 0
               [Response (Some records); Response (Some [])] in
  let records' := [Sample.unreferenced "a0"] in
  let run' := photos_loop (Scenario.album "ASCENDING") 0 0
                [Response (Some records'); Response (Some [])] in
  List.length (masters_of records) = 2
  /\ Scenario.requests (fst run) = [0%Z]
  /\ List.length (Scenario.yields (fst run)) = 1
  /\ snd run = Raised (KeyError "m1")
  /\ masters_of records' = []
  /\ run' = ([Request 0], Raised (KeyError "masterRef")).
Proof. vm_compute. repeat split. Qed.

Section Retries.

(** The failures of consecutive requests, each of which the handler lets
    pass: the same offset is requested again, the attempts count up. *)
Lemma photos_loop_retries a h offset net exs :
  exception_handler a = Some h ->
  forall retries,
  handler_returns h retries exs ->
  photos_loop a offset retries (map RequestRaises exs ++ net)
  = ((retry_events offset retries exs
      ++ fst (photos_loop a offset (retries + List.length exs) net))%list,
     snd (photos_loop a offset (retries + List.length exs) net)).
Proof.
  intros Hh. induction exs as [|ex exs IH]; intros retries Hret.
  - cbn [map app List.length retry_events]. rewrite Nat.add_0_r.
    destruct (photos_loop a offset retries net). reflexivity.
  - destruct Hret as [H0 Hret].
    cbn [map app photos_loop]. rewrite Hh, H0, (IH (S retries) Hret).
    cbn [List.length retry_events fst snd app].
    rewrite Nat.add_succ_r. reflexivity.
Qed.

Lemma retry_events_handled offset exs :
  forall retries,
  Scenario.handled (retry_events offset retries exs)
  = zip exs (seq (S retries) (List.length exs))
  /\ Scenario.requests (retry_events offset retries exs)
     = repeat offset (List.length exs).
Proof.
  induction exs as [|ex exs IH]; intros retries; [split; reflexivity|].
  destruct (IH (S retries)) as [IHh IHr].
  cbn [retry_events Scenario.handled Scenario.requests List.length seq zip
       zip_with repeat].
  rewrite IHh, IHr. split; reflexivity.
Qed.

End Retries.

(** C3, as the code has it: a failure of the page request goes to the
    registered handler with the number of consecutive failures so far (the
    count starts again after a request that succeeded); when the handler
    returns the same offset is requested again, when it raises its exception
    reaches the caller, and without a handler the failure reaches the caller
    at once.  A failure of [request.json()] never goes to the handler. *)
Theorem photos_request_failure (a : PhotoAlbum) offset retries net :
  (forall h exs,
     exception_handler a = Some h -> handler_returns h retries exs ->
     photos_loop a offset retries (map RequestRaises exs ++ net)
     = ((retry_events offset retries exs
         ++ fst (photos_loop a offset (retries + List.length exs) net))%list,
        snd (photos_loop a offset (retries + List.length exs) net))
     /\ Scenario.handled (retry_events offset retries exs)
        = zip exs (seq (S retries) (List.length exs))
     /\ Scenario.requests (retry_events offset retries exs)
        = repeat offset (List.length exs))
  /\ (forall h ex ex',
        exception_handler a = Some h -> h ex (S retries) = Some ex' ->
        photos_loop a offset retries (RequestRaises ex :: net)
        = ([Request offset; Handled ex (S retries)], Raised ex'))
  /\ (forall ex,
        exception_handler a = None ->
        photos_loop a offset retries (RequestRaises ex :: net)
        = ([Request offset], Raised ex))
  /\ (forall ex,
        photos_loop a offset retries (JsonRaises ex :: net)
        = ([Request offset], Raised ex))
  /\ (forall records assets masters,
        split_records records ∅ [] = Ok (assets, masters) ->
        masters <> [] ->
        (forall m, In m masters -> assets !! recordName m <> None) ->
        exists ps,
          photos_loop a offset retries (Response (Some records) :: net)
          = ((Request offset :: map Yield ps
                ++ fst (photos_loop a (advance a offset (List.length masters))
                          0 net))%list,
             snd (photos_loop a (advance a offset (List.length masters)) 0 net))).
Proof.
  split; [|split; [|split; [|split]]].
  - intros h exs Hh Hret. split.
    + exact (photos_loop_retries a h offset net exs Hh retries Hret).
    + exact (retry_events_handled offset exs retries).
  - intros h ex ex' Hh Hraise. cbn [photos_loop]. rewrite Hh, Hraise. reflexivity.
  - intros ex Hh. cbn [photos_loop]. rewrite Hh. reflexivity.
  - intros ex. reflexivity.
  - intros records assets masters Hsplit Hne Hall.
    destruct (photos_loop_page a offset retries records net assets masters
                Hsplit Hne Hall) as (ps & _ & _ & Hloop).
    exists ps. exact Hloop.
Qed.

Lemma photos_request_failure_witness :
  photos_loop SampleAlbum.album 5 0
    [RequestRaises (SessionError 503); RequestRaises (SessionError 504);
     Response (Some [])]
  = ([Request 5; Handled (SessionError 503) 1;
      Request 5; Handled (SessionError 504) 2; Request 5], Exhausted)
  /\ photos_loop SampleAlbum.album 5 2 [RequestRaises (SessionError 503)]
     = ([Request 5; Handled (SessionError 503) 3], Raised (SessionError 503))
  /\ photos_loop (Scenario.album "ASCENDING") 5 0
       [RequestRaises (SessionError 503)]
     = ([Request 5], Raised (SessionError 503)).
Proof.
  split; [|split].
  - refine (proj1 (proj1 (photos_request_failure SampleAlbum.album 5 0
                            [Response (Some [])])
                     SampleAlbum.patient [SessionError 503; SessionError 504]
                     eq_refl _)).
    repeat split.
  - refine (proj1 (proj2 (photos_request_failure SampleAlbum.album 5 2 []))
              SampleAlbum.patient _ _ eq_refl eq_refl).
  - refine (proj1 (proj2 (proj2 (photos_request_failure
                                   (Scenario.album "ASCENDING") 5 0 [])))
              _ eq_refl).
Defined.

(** C3, as stated, fails: with a handler registered, a response whose body
    cannot be decoded ends the iteration, and the handler is not called. *)
Lemma photos_request_failure_counterexample :
  let run := photos_loop SampleAlbum.album 0 0
               [JsonRaises ValueError; Response (Some [])] in
  exception_handler SampleAlbum.album = Some SampleAlbum.patient
  /\ SampleAlbum.patient ValueError 1 = None
  /\ Scenario.handled (fst run) = []
  /\ run = ([Request 0], Raised ValueError).
Proof. repeat split. Qed.

Section Reconciliation.

Lemma split_records_agree k records :
  forall assets1 assets2 masters,
  agree_except k assets1 assets2 ->
  split_rel k (split_records records assets1 masters)
              (split_records records assets2 masters).
Proof.
  induction records as [|rec rest IH]; intros assets1 assets2 masters Hagree;
    cbn [split_records].
  - cbn. split; [reflexivity | exact Hagree].
  - destruct (String.eqb (recordType rec) "CPLAsset").
    + destruct (master_ref rec) as [[k0|]|]; cbn; [| apply IH; exact Hagree | reflexivity].
      apply IH. intros j Hj. destruct (decide (k0 = j)) as [->|Hne].
      * rewrite !lookup_insert_eq. reflexivity.
      * rewrite !lookup_insert_ne by exact Hne. apply Hagree. exact Hj.
    + destruct (String.eqb (recordType rec) "CPLMaster"); apply IH; exact Hagree.
Qed.

Lemma split_records_app l1 l2 :
  forall assets masters,
  split_records (l1 ++ l2)%list assets masters
  = match split_records l1 assets masters with
    | Ok (assets', masters') => split_records l2 assets' masters'
    | Raise e => Raise e
    end.
Proof.
  induction l1 as [|rec l1 IH]; intros assets masters; [reflexivity|].
  cbn [app split_records].
  destruct (String.eqb (recordType rec) "CPLAsset").
  - destruct (master_ref rec) as [[k0|]|]; cbn; [apply IH | apply IH | reflexivity].
  - destruct (String.eqb (recordType rec) "CPLMaster"); apply IH.
Qed.

(** A page with and without an asset record that refers to [k]. *)
Lemma split_records_drop k before rec after :
  is_asset rec = true -> master_ref rec = Ok (Some k) ->
  split_rel k (split_records (before ++ rec :: after)%list ∅ [])
              (split_records (before ++ after)%list ∅ []).
Proof.
  intros Ha Hk. rewrite !split_records_app.
  destruct (split_records before ∅ []) as [[assets masters]|e]; [|reflexivity].
  cbn [split_records]. unfold is_asset in Ha. rewrite Ha, Hk. cbn.
  apply split_records_agree. intros j Hj.
  rewrite lookup_insert_ne by congruence. reflexivity.
Qed.

Lemma yield_assets_agree svc k assets1 assets2 masters :
  agree_except k assets1 assets2 ->
  (forall m, In m masters -> recordName m <> k) ->
  yield_assets svc assets1 masters = yield_assets svc assets2 masters.
Proof.
  intros Hagree. induction masters as [|m rest IH]; intros Hnames; [reflexivity|].
  cbn [yield_assets].
  rewrite (Hagree (recordName m)) by (apply Hnames; left; reflexivity).
  rewrite IH by (intros m' Hin; apply Hnames; right; exact Hin).
  reflexivity.
Qed.

End Reconciliation.

(** C4: a master record for which the page has no asset record (none whose
    masterRef names it) makes the lookup fail and ends the iteration with
    that failure; an asset record whose masterRef names no master record of
    the page changes nothing: the page runs as if the record were not
    there. *)
Theorem reconciliation_mismatch (a : PhotoAlbum) offset retries net :
  (forall records assets masters m,
     split_records records ∅ [] = Ok (assets, masters) ->
     In m records -> is_master m = true ->
     (forall rec, In rec records -> is_asset rec = true ->
        master_ref rec <> Ok (Some (recordName m))) ->
     exists ps m',
       In m' masters /\ assets !! recordName m' = None
       /\ (List.length ps < List.length masters)%nat
       /\ photos_loop a offset retries (Response (Some records) :: net)
          = (Request offset :: map Yield ps,
             Raised (KeyError (recordName m'))))
  /\ (forall before rec after k,
        is_asset rec = true -> master_ref rec = Ok (Some k) ->
        (forall m, In m (before ++ after)%list -> is_master m = true ->
           recordName m <> k) ->
        photos_loop a offset retries
          (Response (Some (before ++ rec :: after)%list) :: net)
        = photos_loop a offset retries
            (Response (Some (before ++ after)%list) :: net)).
Proof.
  split.
  - intros records assets masters m Hsplit Hin Hm Hnone.
    pose proof (split_records_masters _ _ _ _ _ Hsplit) as Hmasters.
    cbn [app] in Hmasters.
    assert (Hin' : In m masters).
    { rewrite Hmasters. unfold masters_of. apply List.filter_In. tauto. }
    assert (Hlookup : assets !! recordName m = None).
    { apply (split_records_lookup _ _ _ _ _ Hsplit). split; [|exact Hnone].
      apply lookup_empty. }
    destruct (yield_assets_unmatched (service a) assets masters m Hin' Hlookup)
      as (ps & m' & Hy & Hin'' & Hm' & Hlen).
    exists ps, m'. split; [exact Hin''|]. split; [exact Hm'|]. split; [exact Hlen|].
    cbn [photos_loop]. rewrite Hsplit.
    destruct (Nat.eqb_spec (List.length masters) 0) as [E|_].
    + destruct masters; [destruct Hin' | discriminate].
    + rewrite Hy. reflexivity.
  - intros before rec after k Ha Hk Hnames.
    pose proof (split_records_drop k before rec after Ha Hk) as Hrel.
    cbn [photos_loop].
    destruct (split_records (before ++ rec :: after)%list ∅ [])
      as [[assets1 masters1]|e1] eqn:E1;
      destruct (split_records (before ++ after)%list ∅ [])
        as [[assets2 masters2]|e2] eqn:E2; cbn in Hrel;
      try contradiction; [|congruence].
    destruct Hrel as [<- Hagree].
    rewrite (yield_assets_agree (service a) k assets1 assets2 masters1 Hagree).
    + reflexivity.
    + pose proof (split_records_masters _ _ _ _ _ E2) as Hmasters.
      cbn [app] in Hmasters. intros m Hin. rewrite Hmasters in Hin.
      apply List.filter_In in Hin as [Hin Hm]. exact (Hnames m Hin Hm).
Qed.

Lemma reconciliation_mismatch_witness :
  let a := Scenario.album "ASCENDING" in
  (exists ps m',
     (List.length ps < 2)%nat
     /\ photos_loop a 0 0
          [Response (Some [Sample.asset "a0" "m0"; Sample.master "m0" [];
                           Sample.master "m1" []]);
           Response (Some [])]
        = (Request 0 :: map Yield ps, Raised (KeyError (recordName m'))))
  /\ photos_loop a 0 0
       [Response (Some [Sample.asset "a0" "m0"; Sample.asset "a9" "m9";
                        Sample.master "m0" []])]
     = photos_loop a 0 0
         [Response (Some [Sample.asset "a0" "m0"; Sample.master "m0" []])].
Proof.
  intros a. split.
  - pose (records := [Sample.asset "a0" "m0"; Sample.master "m0" [];
                      Sample.master "m1" []]).
    pose (split := match split_records records ∅ [] with
                   | Ok am => am
                   | Raise _ => (∅, [])
                   end).
    destruct (proj1 (reconciliation_mismatch a 0 0 [Response (Some [])])
                records (fst split) (snd split) (Sample.master "m1" []))
      as (ps & m' & _ & _ & Hlen & Hloop).
    + vm_compute. reflexivity.
    + right. right. left. reflexivity.
    + reflexivity.
    + intros rec Hin Ha.
      destruct Hin as [<-|[<-|[<-|[]]]]; vm_compute; discriminate.
    + exists ps, m'. split; [exact Hlen | exact Hloop].
  - refine (proj2 (reconciliation_mismatch a 0 0 [])
              [Sample.asset "a0" "m0"] (Sample.asset "a9" "m9")
              [Sample.master "m0" []] "m9" _ _ _).
    + reflexivity.
    + vm_compute. reflexivity.
    + intros m Hin Hm.
      destruct Hin as [<-|[<-|[]]]; vm_compute; discriminate.
Defined.

(** * Further properties of the code *)

(** ** [PhotosService._fetch_folders] *)

Section FolderListing.

Lemma fetch_more_done records gathered net :
  fetch_more {| Folders.records := records;
                Folders.continuationMarker := None |} gathered net
  = ([], Done gathered).
Proof. destruct net; reflexivity. Qed.

Lemma fetch_more_pages pages :
  forall records marker gathered last rest,
  fetch_more {| Folders.records := records;
                Folders.continuationMarker := Some (JStr marker) |}
    gathered
    (map SampleFolders.marked_page pages ++ SampleFolders.last_page last :: rest)
  = (Folders.next_query marker :: map (fun page => Folders.next_query (snd page)) pages,
     Done (gathered ++ concat (map fst pages) ++ last)%list).
Proof.
  induction pages as [|[recs m] pages IH]; intros records marker gathered last rest.
  - cbn [map app fetch_more SampleFolders.last_page Folders.continuationMarker
         Folders.records concat].
    rewrite fetch_more_done. reflexivity.
  - cbn [map app fetch_more SampleFolders.marked_page Folders.continuationMarker
         Folders.records fst snd concat].
    rewrite IH. rewrite <- !app_assoc. reflexivity.
Qed.

Lemma fetch_more_fails pages :
  forall records marker gathered ex rest,
  fetch_more {| Folders.records := records;
                Folders.continuationMarker := Some (JStr marker) |}
    gathered
    (map SampleFolders.marked_page pages ++ Folders.PostRaises ex :: rest)
  = (Folders.next_query marker :: map (fun page => Folders.next_query (snd page)) pages,
     Failed ex).
Proof.
  induction pages as [|[recs m] pages IH]; intros records marker gathered ex rest.
  - reflexivity.
  - cbn [map app fetch_more SampleFolders.marked_page Folders.continuationMarker
         Folders.records fst snd].
    rewrite IH. reflexivity.
Qed.

End FolderListing.

(** X1: a folder listing of several pages, each but the last with a
    continuation marker, is fetched with one request per page, every request
    after the first carrying the marker of the page before, and gives the
    records of all pages in order; replies after the page without marker are
    not read.  When a request fails on the way, the records gathered so far
    are lost with it. *)
Theorem fetch_folders_pages
    (pages : list (list raw_record * string)) (last : list raw_record)
    (rest : list Folders.reply) (ex : exn) :
  _fetch_folders
    (map SampleFolders.marked_page pages ++ SampleFolders.last_page last :: rest)
  = ((Folders.first_query
        :: map (fun page => Folders.next_query (snd page)) pages)%list,
     Done (concat (map fst pages) ++ last)%list)
  /\ _fetch_folders
       (map SampleFolders.marked_page pages ++ Folders.PostRaises ex :: rest)
     = ((Folders.first_query
           :: map (fun page => Folders.next_query (snd page)) pages)%list,
        Failed ex).
Proof.
  split.
  - destruct pages as [|[recs m] pages].
    + cbn [map app _fetch_folders SampleFolders.last_page Folders.records concat].
      rewrite fetch_more_done. reflexivity.
    + cbn [map app _fetch_folders SampleFolders.marked_page Folders.records
           fst snd concat].
      rewrite fetch_more_pages. rewrite <- app_assoc. reflexivity.
  - destruct pages as [|[recs m] pages].
    + reflexivity.
    + cbn [map app _fetch_folders SampleFolders.marked_page Folders.records
           fst snd].
      rewrite fetch_more_fails. reflexivity.
Qed.

(** ** [PhotosService.albums] *)

Section Albums.

Context (svc : PhotosService).

Lemma smart_albums_lookup entry :
  In entry SMART_FOLDERS ->
  smart_albums svc !! fst entry = Some (smart_album svc entry).
Proof.
  intros Hin. unfold SMART_FOLDERS in Hin.
  repeat (destruct Hin as [<-|Hin]; [vm_compute; reflexivity|]).
  destruct Hin.
Qed.

Lemma folder_skipped_root folder :
  recordName folder = root_folder -> folder_skipped folder = Ok true.
Proof. intros H. unfold folder_skipped. rewrite H. reflexivity. Qed.

(** A folder that is not skipped is not the root folder, and its deleted
    flag, when it can be read, is not set. *)
Lemma folder_skipped_false folder :
  folder_skipped folder = Ok false ->
  recordName folder <> root_folder
  /\ forall entry value,
       fields folder !! "isDeleted" = Some entry ->
       Py.truthy entry = true ->
       Py.subscript entry "value" = Ok value ->
       Py.truthy value = false.
Proof.
  unfold folder_skipped.
  destruct (String.eqb_spec (recordName folder) root_folder) as [|Hne];
    [discriminate|].
  intros H. split; [exact Hne|].
  intros entry value He Ht Hv. rewrite He, Ht in H.
  unfold Py.item in H. rewrite He in H. cbn in H. rewrite Hv in H. cbn in H.
  congruence.
Qed.

Lemma folder_album_shape folder name album :
  folder_album svc folder = Ok (name, album) ->
  album = PhotoAlbum_init svc name "CPLContainerRelationLiveByAssetDate"
            ("CPLContainerRelationNotDeletedByAssetDate:" ++ recordName folder)
            "ASCENDING" (Some [equals_filter "parentId" (recordName folder)]) 100
  /\ exists entry value,
       fields folder !! "albumNameEnc" = Some entry
       /\ Py.subscript entry "value" = Ok value
       /\ decode_name value = Ok name.
Proof.
  unfold folder_album, Py.item.
  destruct (fields folder !! "albumNameEnc") as [entry|]; [cbn | discriminate].
  destruct (Py.subscript entry "value") as [value|] eqn:Ev; [cbn | discriminate].
  destruct (decode_name value) as [n|] eqn:En; [cbn | discriminate].
  intros [= <- <-]. split; [reflexivity|].
  exists entry, value. split; [reflexivity|]. split; assumption.
Qed.

(** The entries of the dictionary after the loop, however it ended. *)
Lemma add_folders_entries folders :
  forall acc stored e,
  add_folders svc folders acc = (stored, e) ->
  forall name album, stored !! name = Some album ->
    acc !! name = Some album
    \/ exists folder, In folder folders /\ registers svc folder name album.
Proof.
  induction folders as [|folder rest IH]; intros acc stored e; cbn [add_folders].
  - intros [= <- _]. auto.
  - assert (Hrest : forall acc',
              add_folders svc rest acc' = (stored, e) ->
              forall name album, stored !! name = Some album ->
                acc' !! name = Some album
                \/ exists f, In f (folder :: rest) /\ registers svc f name album).
    { intros acc' H name album Hs.
      destruct (IH _ _ _ H name album Hs) as [Ha|(f & Hin & Hr)]; [auto|].
      right. exists f. split; [right; exact Hin | exact Hr]. }
    destruct (fields folder !! "albumNameEnc") as [entry|] eqn:En; [|apply Hrest].
    destruct (folder_skipped folder) as [[]|e0] eqn:Es;
      [apply Hrest | | intros [= <- _]; auto].
    destruct (folder_album svc folder) as [[fname falbum]|e0] eqn:Ea;
      [|intros [= <- _]; auto].
    intros H name album Hs.
    destruct (Hrest _ H name album Hs) as [Ha|Hf]; [|auto].
    destruct (decide (fname = name)) as [->|Hne].
    + rewrite lookup_insert_eq in Ha. injection Ha as <-.
      right. exists folder. split; [left; reflexivity|].
      split; [congruence|]. split; assumption.
    + rewrite lookup_insert_ne in Ha by exact Hne. auto.
Qed.

(** The loop never removes a name. *)
Lemma add_folders_keeps folders :
  forall acc stored e name,
  add_folders svc folders acc = (stored, e) ->
  is_Some (acc !! name) -> is_Some (stored !! name).
Proof.
  induction folders as [|folder rest IH]; intros acc stored e name;
    cbn [add_folders].
  - intros [= <- _]. trivial.
  - destruct (fields folder !! "albumNameEnc"); [|apply IH].
    destruct (folder_skipped folder) as [[]|e0];
      [apply IH | | intros [= <- _]; trivial].
    destruct (folder_album svc folder) as [[fname falbum]|e0];
      [|intros [= <- _]; trivial].
    intros H Hacc. apply (IH _ _ _ _ H).
    destruct (decide (fname = name)) as [->|Hne].
    + rewrite lookup_insert_eq. eauto.
    + rewrite lookup_insert_ne by exact Hne. exact Hacc.
Qed.

(** A folder that is registered, and after which no folder registers the
    same name, is what the name stands for. *)
Lemma add_folders_last before folder after name album :
  forall acc stored,
  registers svc folder name album ->
  (forall g album', In g after -> ~ registers svc g name album') ->
  add_folders svc (before ++ folder :: after)%list acc = (stored, None) ->
  stored !! name = Some album.
Proof.
  intros acc stored (Hn & Hs & Ha) Hafter.
  revert acc. induction before as [|f before IH]; intros acc.
  - cbn [app add_folders].
    destruct (fields folder !! "albumNameEnc"); [|contradiction].
    rewrite Hs, Ha. intros H.
    assert (Hin : forall stored0 e acc0,
              add_folders svc after acc0 = (stored0, e) ->
              acc0 !! name = Some album -> stored0 !! name = Some album).
    { clear H. induction after as [|g after IHa]; intros stored0 e acc0;
        cbn [add_folders].
      - intros [= <- _]. trivial.
      - assert (Hafter' : forall g' album', In g' after ->
                  ~ registers svc g' name album').
        { intros g' album' Hin. apply Hafter. right. exact Hin. }
        destruct (fields g !! "albumNameEnc") as [entry|] eqn:En;
          [|apply (IHa Hafter')].
        destruct (folder_skipped g) as [[]|e0] eqn:Es;
          [apply (IHa Hafter') | | intros [= <- _]; trivial].
        destruct (folder_album svc g) as [[gname galbum]|e0] eqn:Eg;
          [|intros [= <- _]; trivial].
        intros H0 Hacc. apply (IHa Hafter' _ _ _ H0).
        destruct (decide (gname = name)) as [->|Hne].
        + exfalso. apply (Hafter g galbum); [left; reflexivity|].
          split; [congruence|]. split; assumption.
        + rewrite lookup_insert_ne by exact Hne. exact Hacc. }
    apply (Hin _ _ _ H). apply lookup_insert_eq.
  - cbn [app add_folders].
    destruct (fields f !! "albumNameEnc"); [|apply IH].
    destruct (folder_skipped f) as [[]|e0]; [apply IH | | discriminate].
    destruct (folder_album svc f) as [[fname falbum]|e0]; [apply IH | discriminate].
Qed.

End Albums.

Section Catalogs.

Lemma albums_first c net :
  albums_unset c = true -> albums c net = albums_compute c net.
Proof. intros H. unfold albums. rewrite H. reflexivity. Qed.

(** What [albums] stores when it computes the dictionary: the smart albums
    with the folders added up to the end of the listing or up to the folder
    that raised. *)
Lemma albums_compute_stored c net c' posted out :
  albums_compute c net = (c', posted, out) ->
  exists stored,
    c' = set_albums c stored
    /\ (forall name, is_Some (smart_albums (catalog_service c) !! name) ->
          is_Some (stored !! name))
    /\ (forall name album, stored !! name = Some album ->
          smart_albums (catalog_service c) !! name = Some album
          \/ exists folders folder,
               _fetch_folders net = (posted, Done folders)
               /\ In folder folders
               /\ registers (catalog_service c) folder name album)
    /\ (forall m, out = Done m -> m = stored).
Proof.
  unfold albums_compute.
  destruct (_fetch_folders net) as [posted0 [folders|e|]] eqn:Ef.
  - destruct (add_folders (catalog_service c) folders _) as [stored e] eqn:Ea.
    assert (H : forall out0, (set_albums c stored, posted0, out0) = (c', posted, out) ->
              out0 = out /\ exists stored0,
                c' = set_albums c stored0
                /\ (forall name, is_Some (smart_albums (catalog_service c) !! name) ->
                      is_Some (stored0 !! name))
                /\ (forall name album, stored0 !! name = Some album ->
                      smart_albums (catalog_service c) !! name = Some album
                      \/ exists folders0 folder,
                           (posted0, Done folders) = (posted, Done folders0)
                           /\ In folder folders0
                           /\ registers (catalog_service c) folder name album)
                /\ stored0 = stored).
    { intros out0 [= <- <- <-]. split; [reflexivity|]. exists stored.
      split; [reflexivity|]. split; [|split; [|reflexivity]].
      - intros name. exact (add_folders_keeps _ _ _ _ _ _ Ea).
      - intros name album Hs.
        destruct (add_folders_entries _ _ _ _ _ Ea name album Hs)
          as [Hsm|(folder & Hin & Hr)]; [auto|].
        right. exists folders, folder. auto. }
    destruct e as [e|]; intros Heq;
      destruct (H _ Heq) as (<- & stored0 & Hc & Hk & Hs & ->);
      exists stored; (split; [exact Hc|]); (split; [exact Hk|]);
      (split; [exact Hs|]).
    + discriminate.
    + intros m [= <-]. reflexivity.
  - intros [= <- <- <-]. exists (smart_albums (catalog_service c)).
    split; [reflexivity|]. split; [trivial|]. split; [auto | discriminate].
  - intros [= <- <- <-]. exists (smart_albums (catalog_service c)).
    split; [reflexivity|]. split; [trivial|]. split; [auto | discriminate].
Qed.

End Catalogs.

Section StoredCatalog.

Lemma lookup_size_ne_0 {A} (m : gmap string A) k :
  is_Some (m !! k) -> size m <> 0.
Proof.
  intros [v Hv] Hs. apply map_size_empty_iff in Hs. subst m.
  rewrite lookup_empty in Hv. discriminate.
Qed.

Lemma albums_stored c stored :
  _albums c = Some stored -> size stored <> 0 ->
  forall net, albums c net = (c, [], Done stored).
Proof.
  intros Hs Hne net. unfold albums, albums_unset. rewrite Hs.
  destruct (Nat.eqb_spec (size stored) 0); [contradiction | reflexivity].
Qed.

(** A first access stores a dictionary, however it ends. *)
Lemma albums_run_stored c net :
  albums_unset c = true ->
  exists stored, _albums (fst (fst (albums c net))) = Some stored.
Proof.
  intros Hu. rewrite (albums_first c net Hu).
  destruct (albums_compute c net) as [[c' posted] out] eqn:Ha.
  destruct (albums_compute_stored c net c' posted out Ha) as (stored & -> & _).
  exists stored. reflexivity.
Qed.

Lemma pair_eta3 {A B C} (x : A * B * C) : x = (fst (fst x), snd (fst x), snd x).
Proof. destruct x as [[a b] c]. reflexivity. Qed.

End StoredCatalog.

(** X2: whatever the listing, an album of the catalog is a smart album or
    comes from a folder of the listing that has a name field, is not the
    root folder "----Root-Folder----" and has no deleted flag set; such an
    album lists "CPLContainerRelationLiveByAssetDate", counts under
    "CPLContainerRelationNotDeletedByAssetDate:" followed by the folder's
    record name, and filters on parentId equal to that record name. *)
Theorem albums_folders_kept (c c' : Catalog) net posted out stored name album :
  albums_unset c = true ->
  albums c net = (c', posted, out) ->
  _albums c' = Some stored ->
  stored !! name = Some album ->
  smart_albums (catalog_service c) !! name = Some album
  \/ exists folders folder,
       _fetch_folders net = (posted, Done folders)
       /\ In folder folders
       /\ fields folder !! "albumNameEnc" <> None
       /\ recordName folder <> root_folder
       /\ (forall entry value,
             fields folder !! "isDeleted" = Some entry ->
             Py.truthy entry = true ->
             Py.subscript entry "value" = Ok value ->
             Py.truthy value = false)
       /\ album
          = PhotoAlbum_init (catalog_service c) name
              "CPLContainerRelationLiveByAssetDate"
              ("CPLContainerRelationNotDeletedByAssetDate:" ++ recordName folder)
              "ASCENDING"
              (Some [equals_filter "parentId" (recordName folder)]) 100.
Proof.
  intros Hu Ha Hstored Hname. rewrite (albums_first c net Hu) in Ha.
  destruct (albums_compute_stored c net c' posted out Ha)
    as (stored0 & -> & _ & Hentries & _).
  cbn in Hstored. injection Hstored as ->.
  destruct (Hentries name album Hname) as [Hs|(folders & folder & Hf & Hin & Hr)];
    [left; exact Hs|].
  right. exists folders, folder. destruct Hr as (Hn & Hsk & Hal).
  destruct (folder_skipped_false folder Hsk) as [Hroot Hdel].
  destruct (folder_album_shape _ folder name album Hal) as [Halbum _].
  repeat (split; [assumption|]). exact Halbum.
Qed.

Lemma albums_folders_kept_witness :
  let run := albums SampleFolders.fresh SampleCatalog.listing in
  let album := album_of_folder "F2" "Trip" in
  exists stored,
    _albums (fst (fst run)) = Some stored
    /\ stored !! "Trip" = Some album
    /\ stored !! "Old" = None
    /\ stored !! "Library" = None
    /\ (smart_albums Sample.svc !! "Trip" = Some album
        \/ exists folders folder,
             _fetch_folders SampleCatalog.listing = (snd (fst run), Done folders)
             /\ In folder folders
             /\ fields folder !! "albumNameEnc" <> None
             /\ recordName folder <> root_folder
             /\ (forall entry value,
                   fields folder !! "isDeleted" = Some entry ->
                   Py.truthy entry = true ->
                   Py.subscript entry "value" = Ok value ->
                   Py.truthy value = false)
             /\ album
                = PhotoAlbum_init Sample.svc "Trip"
                    "CPLContainerRelationLiveByAssetDate"
                    ("CPLContainerRelationNotDeletedByAssetDate:"
                     ++ recordName folder)
                    "ASCENDING"
                    (Some [equals_filter "parentId" (recordName folder)]) 100).
Proof.
  intros run album.
  destruct (albums_run_stored SampleFolders.fresh SampleCatalog.listing eq_refl)
    as [stored H1].
  fold run in H1.
  assert (Hl : forall name,
            _albums (fst (fst run)) ≫= (fun m => m !! name) = stored !! name).
  { intros name. rewrite H1. reflexivity. }
  assert (H2 : stored !! "Trip" = Some album).
  { rewrite <- Hl. vm_compute. reflexivity. }
  exists stored. split; [exact H1|]. split; [exact H2|].
  split; [rewrite <- Hl; vm_compute; reflexivity|].
  split; [rewrite <- Hl; vm_compute; reflexivity|].
  apply (albums_folders_kept SampleFolders.fresh (fst (fst run))
           SampleCatalog.listing (snd (fst run)) (snd run) stored "Trip" album).
  - reflexivity.
  - apply pair_eta3.
  - exact H1.
  - exact H2.
Defined.

(** X3: the eleven smart albums are in the catalog under their names however
    the folder listing ends, also when it fails or a folder raises: the
    loop only adds names or replaces what a name stands for. *)
Theorem albums_smart_names (c c' : Catalog) net posted out stored entry :
  albums_unset c = true ->
  albums c net = (c', posted, out) ->
  _albums c' = Some stored ->
  In entry SMART_FOLDERS ->
  is_Some (stored !! fst entry)
  /\ List.length SMART_FOLDERS = 11
  /\ NoDup (map fst SMART_FOLDERS).
Proof.
  intros Hu Ha Hstored Hin. rewrite (albums_first c net Hu) in Ha.
  destruct (albums_compute_stored c net c' posted out Ha)
    as (stored0 & -> & Hkeep & _ & _).
  cbn in Hstored. injection Hstored as ->. split; [|split].
  - apply Hkeep. rewrite (smart_albums_lookup _ entry Hin). eauto.
  - reflexivity.
  - apply (NoDup_ListNoDup (map fst SMART_FOLDERS)).
    repeat constructor; cbn; intros H;
      repeat (destruct H as [H|H]; [discriminate H|]); exact H.
Qed.

Lemma albums_smart_names_witness :
  let run := albums SampleFolders.fresh SampleCatalog.broken_listing in
  snd run = Failed ValueError
  /\ exists stored,
       _albums (fst (fst run)) = Some stored
       /\ is_Some (stored !! "Hidden").
Proof.
  intros run.
  destruct (albums_run_stored SampleFolders.fresh SampleCatalog.broken_listing
              eq_refl) as [stored H1].
  fold run in H1.
  split; [vm_compute; reflexivity|]. exists stored. split; [exact H1|].
  refine (proj1 (albums_smart_names SampleFolders.fresh (fst (fst run))
                   SampleCatalog.broken_listing (snd (fst run)) (snd run) stored
                   ("Hidden", ("CPLAssetHiddenByAssetDate",
                               "CPLAssetAndMasterHiddenByAssetDate",
                               "ASCENDING", None)) eq_refl (pair_eta3 _) H1 _)).
  do 10 right. left. reflexivity.
Defined.

(** X4: when two entries of the catalog have the same name the later one
    wins, also over a smart album: a folder of the listing that is
    registered under a name, with no later folder registered under it, is
    what the name stands for, so that a user folder named "All Photos" is
    what [all] returns. *)
Theorem albums_last_folder_wins (c c' : Catalog) net posted stored
    before folder after name album :
  albums_unset c = true ->
  _fetch_folders net = (posted, Done (before ++ folder :: after)%list) ->
  albums c net = (c', posted, Done stored) ->
  registers (catalog_service c) folder name album ->
  (forall g album', In g after -> ~ registers (catalog_service c) g name album') ->
  stored !! name = Some album
  /\ list_type album = "CPLContainerRelationLiveByAssetDate"
  /\ (name = "All Photos" -> all c net = (c', posted, Done album)).
Proof.
  intros Hu Hf Ha Hr Hafter.
  assert (Hs : stored !! name = Some album).
  { pose proof Ha as Hc. rewrite (albums_first c net Hu) in Hc.
    unfold albums_compute in Hc. rewrite Hf in Hc.
    destruct (add_folders (catalog_service c) _ _) as [stored0 [e|]] eqn:Ea;
      [discriminate|].
    injection Hc as _ <-.
    exact (add_folders_last _ before folder after name album _ _ Hr Hafter Ea). }
  split; [exact Hs|]. split.
  - destruct Hr as (_ & _ & Hal).
    destruct (folder_album_shape _ folder name album Hal) as [-> _]. reflexivity.
  - intros ->. unfold all. rewrite Ha, Hs. reflexivity.
Qed.

Lemma albums_last_folder_wins_witness :
  let run := all SampleFolders.fresh SampleCatalog.listing in
  let album := album_of_folder "F3" "All Photos" in
  snd run = Done album
  /\ list_type album = "CPLContainerRelationLiveByAssetDate".
Proof.
  intros run album.
  pose (full := albums SampleFolders.fresh SampleCatalog.listing).
  assert (Hdone : is_done (snd full) = true) by (vm_compute; reflexivity).
  destruct (snd full) as [stored| |] eqn:Hout; try discriminate Hdone.
  destruct (albums_last_folder_wins SampleFolders.fresh (fst (fst full))
              SampleCatalog.listing (snd (fst full)) stored
              [SampleCatalog.root; SampleCatalog.deleted; SampleCatalog.trip]
              SampleCatalog.shadow [] "All Photos" album)
    as (_ & Hlist & Hall).
  - reflexivity.
  - vm_compute. reflexivity.
  - rewrite <- Hout. apply pair_eta3.
  - split; [vm_compute; discriminate|]. split; vm_compute; reflexivity.
  - intros g album' [].
  - split; [|exact Hlist]. unfold run. rewrite (Hall eq_refl). reflexivity.
Defined.

(** X5: the catalog is computed at the first access and never again: once
    an access has run, whether it returned the dictionary, failed on the
    listing or on a folder, every later access returns what was stored then,
    without a request and without an exception, so that a catalog cut short
    by a failure is served as if it were complete. *)
Theorem albums_computed_once (c c' : Catalog) net posted out :
  albums_unset c = true ->
  albums c net = (c', posted, out) ->
  exists stored,
    _albums c' = Some stored
    /\ (forall m, out = Done m -> m = stored)
    /\ forall net',
         albums c' net' = (c', [], Done stored)
         /\ exists album, all c' net' = (c', [], Done album).
Proof.
  intros Hu Ha. rewrite (albums_first c net Hu) in Ha.
  destruct (albums_compute_stored c net c' posted out Ha)
    as (stored & -> & Hkeep & _ & Hout).
  exists stored. split; [reflexivity|]. split; [exact Hout|].
  assert (Hall : is_Some (stored !! "All Photos")).
  { apply Hkeep.
    rewrite (smart_albums_lookup _
               ("All Photos", ("CPLAssetByAddedDate",
                               "CPLAssetAndMasterByAddedDate", "ASCENDING", None))
               (or_introl eq_refl)).
    eauto. }
  intros net'.
  assert (Hagain : albums (set_albums c stored) net'
                   = (set_albums c stored, [], Done stored)).
  { apply albums_stored; [reflexivity|].
    exact (lookup_size_ne_0 stored "All Photos" Hall). }
  split; [exact Hagain|].
  destruct Hall as [album Halbum]. exists album.
  unfold all. rewrite Hagain, Halbum. reflexivity.
Qed.

Lemma albums_computed_once_witness :
  let first := albums SampleFolders.fresh SampleCatalog.broken_listing in
  snd first = Failed ValueError
  /\ exists stored,
       _albums (fst (fst first)) = Some stored
       /\ albums (fst (fst first)) SampleCatalog.listing
          = (fst (fst first), [], Done stored)
       /\ exists album,
            all (fst (fst first)) SampleCatalog.listing
            = (fst (fst first), [], Done album).
Proof.
  intros first.
  destruct (albums_computed_once SampleFolders.fresh (fst (fst first))
              SampleCatalog.broken_listing (snd (fst first)) (snd first)
              eq_refl (pair_eta3 _))
    as (stored & Hstored & _ & Hagain).
  split; [vm_compute; reflexivity|]. exists stored.
  split; [exact Hstored|]. exact (Hagain SampleCatalog.listing).
Defined.

(** ** More of [PhotoAsset] *)

Section Access.

Lemma versions_keeps_service p p' r :
  versions p = (p', r) -> _service p' = _service p.
Proof.
  unfold versions.
  assert (Hc : versions_compute p = (p', r) -> _service p' = _service p).
  { unfold versions_compute. destruct (item_type p).
    - destruct (versions_fill p _ ∅) as [vs [e|]]; intros [= <- _]; reflexivity.
    - intros [= <- _]. reflexivity. }
  destruct (versions_unset p); [exact Hc|].
  destruct (_versions p); [|exact Hc]. intros [= <- _]. reflexivity.
Qed.

(** A mapping with a key is returned again by the next access. *)
Lemma versions_with_key_again p p1 vs name v :
  versions p = (p1, Ok vs) -> vs !! name = Some v ->
  versions p1 = (p1, Ok vs).
Proof.
  intros Hv Hkey. destruct (versions_returns_stored p p1 vs Hv) as [Hs _].
  apply (versions_cached p1 vs Hs).
  intros H0. apply map_size_empty_iff in H0. subst vs.
  rewrite lookup_empty in Hkey. discriminate.
Qed.

End Access.

(** X6: asked for a version that is a key of the versions mapping,
    [download] sends exactly one request, to the url of that version, and
    returns what [session.get] returns or raises what it raises; the
    mapping is resolved once, the second reading of [self.versions] finds it
    stored. *)
Theorem download_known_version (p p1 : PhotoAsset) vs version_name v :
  versions p = (p1, Ok vs) ->
  vs !! version_name = Some v ->
  download p version_name
  = (p1, [v_url v], Some <$> session_get (_service p) (v_url v)).
Proof.
  intros Hv Hkey. unfold download. rewrite Hv, Hkey.
  rewrite (versions_with_key_again p p1 vs version_name v Hv Hkey), Hkey.
  rewrite (versions_keeps_service p p1 _ Hv). reflexivity.
Qed.

Lemma download_known_version_witness :
  let run := download SampleVersions.still "original" in
  snd (fst run) = [JStr "https://cdn/original"]
  /\ snd run = Ok (Some (HttpResponse 200 "https://cdn/original")).
Proof.
  intros run.
  pose (v := {| v_filename := "IMG_0001.JPG"; v_width := JNum 4032;
                v_height := JNull; v_size := JNum 10;
                v_url := JStr "https://cdn/original";
                v_type := JStr "public.jpeg" |}).
  assert (H : download SampleVersions.still "original"
              = (set_versions SampleVersions.still {[ "original" := v ]},
                 [v_url v],
                 Some <$> session_get (_service SampleVersions.still) (v_url v))).
  { apply (download_known_version SampleVersions.still _
             {[ "original" := v ]} "original" v); vm_compute; reflexivity. }
  unfold run. rewrite H. split; reflexivity.
Defined.

Section AfterFailure.

Lemma set_versions_twice p vs vs' :
  set_versions (set_versions p vs) vs' = set_versions p vs'.
Proof. reflexivity. Qed.

Lemma versions_compute_master p q :
  _master_record p = _master_record q ->
  snd (versions_compute p) = snd (versions_compute q)
  /\ _versions (fst (versions_compute p)) = _versions (fst (versions_compute q)).
Proof.
  intros Hm. unfold versions_compute.
  rewrite (item_type_master p q Hm). destruct (item_type q); [|split; reflexivity].
  rewrite (versions_fill_master p q Hm).
  destruct (versions_fill q _ ∅) as [vs [e|]]; split; reflexivity.
Qed.

End AfterFailure.

(** X7: an access to [versions] that raises leaves what it had written:
    when that is nothing the next access raises the same exception again,
    and when it is not the next access returns it as the mapping, with no
    exception, although versions are missing from it. *)
Theorem versions_after_failure (p p1 : PhotoAsset) e :
  versions_unset p = true ->
  versions p = (p1, Raise e) ->
  exists vs,
    _versions p1 = Some vs
    /\ (size vs = 0 -> versions p1 = (p1, Raise e))
    /\ (size vs <> 0 -> versions p1 = (p1, Ok vs)).
Proof.
  intros Hu Hv. rewrite (versions_first p Hu) in Hv.
  assert (Hp1 : exists vs, p1 = set_versions p vs).
  { revert Hv. unfold versions_compute. destruct (item_type p).
    - destruct (versions_fill p _ ∅) as [vs [e0|]]; intros [= <- _]; eauto.
    - intros [= <- _]. eauto. }
  destruct Hp1 as [vs ->]. exists vs. split; [reflexivity|]. split.
  - intros H0.
    assert (Hu1 : versions_unset (set_versions p vs) = true).
    { unfold versions_unset. cbn. rewrite H0. reflexivity. }
    rewrite (versions_first _ Hu1).
    destruct (versions_compute_master (set_versions p vs) p eq_refl) as [Hr Hs].
    rewrite Hv in Hr, Hs. cbn in Hr, Hs.
    destruct (versions_compute (set_versions p vs)) as [p2 r] eqn:E.
    cbn in Hr, Hs. subst r. f_equal.
    revert E Hs. unfold versions_compute. destruct (item_type _).
    + destruct (versions_fill _ _ ∅) as [vs' [e0|]];
        intros [= <- _] [= ->]; reflexivity.
    + intros [= <- _] [= <-]. reflexivity.
  - intros Hne. apply versions_cached; [reflexivity | exact Hne].
Qed.

Lemma versions_after_failure_witness :
  let p := SampleMore.half_readable in
  let p1 := fst (versions p) in
  snd (versions p) = Raise (KeyError "value")
  /\ has_field p "resJPEGMedRes" = true
  /\ exists vs,
       _versions p1 = Some vs
       /\ (size vs <> 0 -> versions p1 = (p1, Ok vs))
       /\ size vs <> 0
       /\ vs !! "medium" = None.
Proof.
  intros p p1.
  assert (Hr : snd (versions p) = Raise (KeyError "value"))
    by (vm_compute; reflexivity).
  destruct (versions_after_failure p p1 (KeyError "value"))
    as (vs & Hs & _ & Hok).
  - reflexivity.
  - rewrite <- Hr. unfold p1. destruct (versions p). reflexivity.
  - split; [exact Hr|]. split; [reflexivity|]. exists vs.
    split; [exact Hs|]. split; [exact Hok|].
    assert (E : Some vs = _versions p1) by (symmetry; exact Hs).
    vm_compute in E. injection E as ->. split; [vm_compute; discriminate|].
    vm_compute. reflexivity.
Defined.


(** X8: the renaming of the movie of a live photo replaces an extension and
    adds none: when the filename has no dot, or ends with one, every version
    keeps the filename, so that the movie and the still of such an image
    have the same name. *)
Theorem version_filename_without_extension
    (p p' : PhotoAsset) fn vs key v :
  versions_invariant p ->
  filename p = Ok fn ->
  versions p = (p', Ok vs) ->
  vs !! key = Some v ->
  Text.has_dot fn = false \/ (exists stem, fn = stem ++ ".") ->
  v_filename v = fn.
Proof.
  intros Hinv Hf Hv Hkey Hfn.
  destruct (versions_entry p p' vs key v Hinv Hv Hkey)
    as (kind & prefix & Hk & _ & _ & Hb).
  destruct (build_version_inv p prefix kind fn v Hk Hf Hb)
    as (_ & _ & _ & _ & ->).
  apply version_filename_kept. exact Hfn.
Qed.

Lemma version_filename_without_extension_witness :
  let p := SampleMore.bare_name in
  exists vs still movie,
    snd (versions p) = Ok vs
    /\ vs !! "original" = Some still
    /\ vs !! "originalVideo" = Some movie
    /\ v_type movie = JStr quicktime_movie
    /\ v_filename movie = "IMG_0006"
    /\ v_filename still = "IMG_0006".
Proof.
  intros p.
  pose (vs := match snd (versions p) with Ok vs => vs | Raise _ => ∅ end).
  pose (blank := {| v_filename := ""; v_width := JNull; v_height := JNull;
                    v_size := JNull; v_url := JNull; v_type := JNull |}).
  pose (still := match vs !! "original" with Some v => v | None => blank end).
  pose (movie := match vs !! "originalVideo" with Some v => v | None => blank end).
  assert (H1 : versions p = (fst (versions p), Ok vs)) by (vm_compute; reflexivity).
  assert (H2 : vs !! "original" = Some still) by (vm_compute; reflexivity).
  assert (H3 : vs !! "originalVideo" = Some movie) by (vm_compute; reflexivity).
  assert (Hf : filename p = Ok "IMG_0006") by (vm_compute; reflexivity).
  exists vs, still, movie.
  split; [vm_compute; reflexivity|]. split; [exact H2|]. split; [exact H3|].
  split; [vm_compute; reflexivity|]. split.
  - apply (version_filename_without_extension p (fst (versions p)) "IMG_0006"
             vs "originalVideo" movie (versions_invariant_init _ _ _) Hf H1 H3).
    left. reflexivity.
  - apply (version_filename_without_extension p (fst (versions p)) "IMG_0006"
             vs "original" still (versions_invariant_init _ _ _) Hf H1 H2).
    left. reflexivity.
Defined.

Section OriginalRendition.

Lemma subscript_truthy entry key value :
  Py.subscript entry key = Ok value -> Py.truthy entry = true.
Proof.
  destruct entry as [| | | | |m]; try discriminate. cbn.
  destruct (m !! key) eqn:E; [|discriminate]. intros _.
  destruct (Nat.eqb_spec (size m) 0) as [H0|]; [|reflexivity].
  apply map_size_empty_iff in H0. subst m. rewrite lookup_empty in E.
  discriminate.
Qed.

Lemma original_prefix kind prefix :
  In ("original", prefix) (typed_version_lookup kind) -> prefix = "resOriginal".
Proof.
  unfold typed_version_lookup.
  destruct (String.eqb kind "movie"); cbn;
    intros H; repeat (destruct H as [H|H]; [congruence|]); destruct H.
Qed.

Lemma original_in_table kind :
  In ("original", "resOriginal") (typed_version_lookup kind).
Proof.
  unfold typed_version_lookup.
  destruct (String.eqb kind "movie"); left; reflexivity.
Qed.

Lemma build_version_ok p prefix v :
  build_version p prefix = Ok v ->
  exists fn kind, filename p = Ok fn /\ item_type p = Ok kind.
Proof.
  unfold build_version. destruct (filename p) as [fn|]; cbn; [|discriminate].
  destruct (value_or_none _ (prefix ++ "Width")); cbn; [|discriminate].
  destruct (value_or_none _ (prefix ++ "Height")); cbn; [|discriminate].
  destruct (size_and_url _ _); cbn; [|discriminate].
  destruct (value_or_none _ (prefix ++ "FileType")); cbn; [|discriminate].
  destruct (item_type p) as [kind|]; cbn; [|discriminate]. eauto.
Qed.

End OriginalRendition.

(** X9: [size] and [dimensions] read the fields of the original rendition
    that [versions] reads: when [size] returns, the versions mapping of a
    first access has an "original" entry with that size, and with the width
    and the height that [dimensions] returns if it returns. *)
Theorem size_matches_original (p p' : PhotoAsset) vs s :
  versions_unset p = true ->
  versions p = (p', Ok vs) ->
  size_of p = Ok s ->
  exists v,
    vs !! "original" = Some v
    /\ v_size v = s
    /\ forall w h, dimensions p = Ok (w, h) -> v_width v = w /\ v_height v = h.
Proof.
  intros Hu Hv Hsize. rewrite (versions_first p Hu) in Hv.
  destruct (item_type p) as [kind|e0] eqn:Hk;
    [|unfold versions_compute in Hv; rewrite Hk in Hv; discriminate].
  destruct (versions_compute_ok p kind p' vs Hk Hv) as [_ Hfill].
  destruct (versions_fill_inv p _ _ _ Hfill) as [Hdom Hent].
  revert Hsize. unfold size_of, Py.item.
  destruct (master_fields p !! "resOriginalRes") as [entry|] eqn:Eres;
    [cbn | discriminate].
  destruct (Py.subscript entry "value") as [value|] eqn:Eval; [cbn | discriminate].
  intros Hs.
  assert (Hfield : has_field p ("resOriginal" ++ "Res") = true).
  { unfold has_field. change ("resOriginal" ++ "Res") with "resOriginalRes".
    rewrite Eres. reflexivity. }
  destruct (proj2 (Hdom "original")) as [v Hkey].
  { right. exists "resOriginal". split; [apply original_in_table | exact Hfield]. }
  destruct (Hent "original" v Hkey) as [He|(prefix & Hin & _ & Hb)].
  { rewrite lookup_empty in He. discriminate. }
  apply original_prefix in Hin. subst prefix.
  destruct (build_version_ok p _ v Hb) as (fn & kind' & Hf & Hk').
  destruct (build_version_inv p _ kind' fn v Hk' Hf Hb)
    as (Hw & Hh & Hsu & _ & _).
  exists v. split; [exact Hkey|]. split.
  - revert Hsu. unfold size_and_url.
    change ("resOriginal" ++ "Res") with "resOriginalRes".
    rewrite Eres, (subscript_truthy entry "value" value Eval), Eval. cbn.
    rewrite Hs. cbn.
    destruct (Py.subscript value "downloadURL"); [cbn | discriminate].
    intros [= <- _]. reflexivity.
  - intros w h. unfold dimensions, Py.item.
    destruct (master_fields p !! "resOriginalWidth") as [ew|] eqn:Ew;
      [cbn | discriminate].
    destruct (Py.subscript ew "value") as [w0|] eqn:Ewv; [cbn | discriminate].
    destruct (master_fields p !! "resOriginalHeight") as [eh|] eqn:Eh;
      [cbn | discriminate].
    destruct (Py.subscript eh "value") as [h0|] eqn:Ehv; [cbn | discriminate].
    intros [= <- <-].
    revert Hw Hh. unfold value_or_none.
    change ("resOriginal" ++ "Width") with "resOriginalWidth".
    change ("resOriginal" ++ "Height") with "resOriginalHeight".
    rewrite Ew, Eh, (subscript_truthy ew "value" w0 Ewv),
      (subscript_truthy eh "value" h0 Ehv), Ewv, Ehv.
    intros [= <-] [= <-]. split; reflexivity.
Qed.

Lemma size_matches_original_witness :
  let p := SampleMore.sized in
  exists vs v,
    snd (versions p) = Ok vs
    /\ vs !! "original" = Some v
    /\ v_size v = JNum 2048
    /\ v_width v = JNum 640 /\ v_height v = JNum 480.
Proof.
  intros p.
  pose (vs := match snd (versions p) with Ok vs => vs | Raise _ => ∅ end).
  destruct (size_matches_original p (fst (versions p)) vs (JNum 2048))
    as (v & Hkey & Hsize & Hdim).
  - reflexivity.
  - vm_compute. reflexivity.
  - vm_compute. reflexivity.
  - exists vs, v. split; [vm_compute; reflexivity|]. split; [exact Hkey|].
    split; [exact Hsize|]. apply Hdim. vm_compute. reflexivity.
Defined.

Section ItemTypes.

Lemma table_find (table : list (string * string)) s :
  match snd <$> List.find (fun kv => String.eqb (fst kv) s) table with
  | Some v => In (s, v) table
  | None => ~ In s (map fst table)
  end.
Proof.
  induction table as [|[k v] table IH]; cbn [List.find map fst]; [cbn; tauto|].
  destruct (String.eqb_spec k s) as [->|Hne].
  - cbn. left. reflexivity.
  - destruct (snd <$> List.find _ table) as [v'|].
    + right. exact IH.
    + cbn. intros [H|H]; [contradiction | exact (IH H)].
Qed.

Lemma item_types_kinds s kind :
  In (s, kind) ITEM_TYPES -> kind = "image" \/ kind = "movie".
Proof.
  unfold ITEM_TYPES. intros H.
  repeat (destruct H as [[= <- <-]|H]; [auto|]). destruct H.
Qed.

Lemma extensions_known s ext :
  In (s, ext) ITEM_TYPE_EXTENSIONS -> ext <> "unknown".
Proof.
  unfold ITEM_TYPE_EXTENSIONS. intros H.
  repeat (destruct H as [[= <- <-]|H]; [discriminate|]). destruct H.
Qed.

(** The content types with a kind and without an extension. *)
Lemma kinds_without_extension s kind :
  In (s, kind) ITEM_TYPES -> ~ In s (map fst ITEM_TYPE_EXTENSIONS) ->
  s = "com.compuserve.gif" \/ s = "com.adobe.raw-image".
Proof.
  unfold ITEM_TYPES. intros H Hn.
  repeat (destruct H as [[= <- <-]|H];
          [first [ left; reflexivity | right; reflexivity
                 | exfalso; apply Hn; cbn; tauto ]|]).
  destruct H.
Qed.

Lemma item_type_of_tag p tag :
  item_type_tag p = Ok tag ->
  item_type p = (hit ← Py.table_get ITEM_TYPES tag;
                 Ok (default "unknown" hit))
  /\ item_type_extension p = (hit ← Py.table_get ITEM_TYPE_EXTENSIONS tag;
                              Ok (default "unknown" hit)).
Proof.
  intros Ht. unfold item_type, item_type_extension. rewrite Ht. cbn.
  split.
  - destruct (Py.table_get ITEM_TYPES tag) as [[k|]|]; reflexivity.
  - destruct (Py.table_get ITEM_TYPE_EXTENSIONS tag) as [[k|]|]; reflexivity.
Qed.

Lemma item_type_of_text p s :
  item_type_tag p = Ok (JStr s) ->
  item_type p
  = Ok (default "unknown"
          (snd <$> List.find (fun kv => String.eqb (fst kv) s) ITEM_TYPES))
  /\ item_type_extension p
     = Ok (default "unknown"
             (snd <$> List.find (fun kv => String.eqb (fst kv) s)
                        ITEM_TYPE_EXTENSIONS)).
Proof.
  intros Ht. destruct (item_type_of_tag p _ Ht) as [-> ->].
  unfold Py.table_get. split; reflexivity.
Qed.

End ItemTypes.

(** X10: [item_type] and [item_type_extension] fail together, with the same
    exception; the kind is image, movie or unknown; and the two tables do
    not have the same keys: for the content types "com.compuserve.gif" and
    "com.adobe.raw-image", and for no other type with a kind, the extension
    is "unknown", so that an unnamed GIF is an image named "....unknown". *)
Theorem item_type_extension_tables (p : PhotoAsset) :
  (forall e, item_type p = Raise e <-> item_type_extension p = Raise e)
  /\ (forall kind, item_type p = Ok kind ->
        kind = "image" \/ kind = "movie" \/ kind = "unknown")
  /\ (forall kind, item_type p = Ok kind -> kind <> "unknown" ->
        (item_type_extension p = Ok "unknown"
         <-> (item_type_tag p = Ok (JStr "com.compuserve.gif")
              \/ item_type_tag p = Ok (JStr "com.adobe.raw-image"))))
  /\ (master_fields p !! "filenameEnc" = None ->
      item_type_tag p = Ok (JStr "com.compuserve.gif") ->
      item_type p = Ok "image"
      /\ filename p
         = Ok (Text.take 12 (Text.sub_non_alnum (id p)) ++ ".unknown")).
Proof.
  destruct (item_type_tag p) as [tag|e0] eqn:Ht.
  - destruct (item_type_of_tag p tag Ht) as [Hk He].
    destruct tag as [| b | n | s | xs | m];
      try (rewrite Hk, He; cbn;
           split; [intros e; split; trivial|];
           split; [intros kind [= <-]; auto|];
           split; [intros kind [= <-] Hne; contradiction | intros _ [=]]);
      try (rewrite Hk, He; cbn;
           split; [intros e; split; trivial|];
           split; [intros kind [=]|];
           split; [intros kind [=] | intros _ [=]]).
    clear Hk He. destruct (item_type_of_text p s Ht) as [Hk He].
    rewrite Hk, He.
    pose proof (table_find ITEM_TYPES s) as HT.
    pose proof (table_find ITEM_TYPE_EXTENSIONS s) as HE.
    assert (Hgif : forall ext,
              s = "com.compuserve.gif" \/ s = "com.adobe.raw-image" ->
              ~ In (s, ext) ITEM_TYPE_EXTENSIONS).
    { intros ext Hs Hin. unfold ITEM_TYPE_EXTENSIONS in Hin.
      destruct Hs as [->| ->];
        repeat (destruct Hin as [Hin|Hin]; [discriminate Hin|]); exact Hin. }
    destruct (snd <$> List.find _ ITEM_TYPES) as [kind0|];
      destruct (snd <$> List.find _ ITEM_TYPE_EXTENSIONS) as [ext0|];
      cbn [from_option] in *; unfold Datatypes.id in *;
      (split; [intros e; split; discriminate|]).
    + split; [intros kind [= <-]; destruct (item_types_kinds s kind0 HT); tauto|].
      split.
      * intros kind _ _. split.
        -- intros [= ->]. destruct (extensions_known s _ HE). reflexivity.
        -- intros [[= ->]|[= ->]]; exfalso; apply (Hgif ext0); tauto.
      * intros _ [= ->]. exfalso. apply (Hgif ext0); tauto.
    + split; [intros kind [= <-]; destruct (item_types_kinds s kind0 HT); tauto|].
      split.
      * intros kind _ _. split; [|reflexivity]. intros _.
        destruct (kinds_without_extension s kind0 HT HE) as [->| ->]; auto.
      * intros Hn [= ->]. split.
        -- f_equal. revert HT. unfold ITEM_TYPES. intros HT.
           repeat (destruct HT as [HT|HT];
                   [first [discriminate HT | congruence]|]).
           destruct HT.
        -- rewrite (filename_absent p Hn). unfold synthetic_filename.
           rewrite He. reflexivity.
    + split; [intros kind [= <-]; tauto|]. split.
      * intros kind [= <-] Hne. contradiction.
      * intros _ [= ->]. exfalso. apply HT. cbn. tauto.
    + split; [intros kind [= <-]; tauto|]. split.
      * intros kind [= <-] Hne. contradiction.
      * intros _ [= ->]. exfalso. apply HT. cbn. tauto.
  - unfold item_type, item_type_extension. rewrite Ht. cbn.
    repeat split; intros; try discriminate; try congruence.
Qed.

Section SyntheticName.

Lemma sub_non_alnum_chars s :
  Text.all_chars is_stem_char (Text.sub_non_alnum s) = true.
Proof.
  induction s as [|c s IH]; [reflexivity|].
  cbn [Text.sub_non_alnum].
  destruct (Text.is_alnum c) eqn:Ea.
  - cbn [Text.all_chars]. unfold is_stem_char at 1. rewrite Ea, IH. reflexivity.
  - destruct (Text.in_range 128 191 c); [exact IH|].
    cbn [Text.all_chars]. rewrite IH. reflexivity.
Qed.

Lemma all_chars_take P n s :
  Text.all_chars P s = true -> Text.all_chars P (Text.take n s) = true.
Proof.
  revert s. induction n as [|n IH]; intros [|c s]; try reflexivity.
  cbn [Text.all_chars Text.take]. intros [-> Hs]%andb_prop.
  rewrite (IH s Hs). reflexivity.
Qed.

Lemma length_take n s : (String.length (Text.take n s) <= n)%nat.
Proof.
  revert s. induction n as [|n IH]; intros [|c s]; cbn; try lia.
  specialize (IH s). lia.
Qed.

Lemma stem_char_not_dot c : is_stem_char c = true -> Text.is_dot c = false.
Proof. destruct c as [[] [] [] [] [] [] [] []]; vm_compute; congruence. Qed.

Lemma stem_chars_no_dot s :
  Text.all_chars is_stem_char s = true -> Text.has_dot s = false.
Proof.
  induction s as [|c s IH]; [reflexivity|].
  cbn [Text.all_chars Text.has_dot]. intros [Hc Hs]%andb_prop.
  rewrite (stem_char_not_dot c Hc), (IH Hs). reflexivity.
Qed.

Lemma extension_values p ext :
  item_type_extension p = Ok ext ->
  ext = "unknown" \/ In ext (map snd ITEM_TYPE_EXTENSIONS).
Proof.
  unfold item_type_extension.
  destruct (item_type_tag p) as [tag|]; cbn; [|discriminate].
  destruct tag as [| b | n | s | xs | m]; cbn -[ITEM_TYPE_EXTENSIONS];
    try discriminate; try (intros [= <-]; left; reflexivity).
  destruct (List.find _ ITEM_TYPE_EXTENSIONS) as [[k v]|] eqn:Ef;
    cbn -[ITEM_TYPE_EXTENSIONS].
  - intros [= <-]. right. apply List.find_some in Ef as [Hin _].
    exact (in_map snd _ _ Hin).
  - intros [= <-]. left. reflexivity.
Qed.

End SyntheticName.

(** X11: the name made up for an entity without a name field is a stem of at
    most 12 characters, all of them ASCII letters, digits or "_", then a
    dot, then an extension of the extension table or "unknown"; the stem has
    no dot, so that the extension of such a name is always the part after
    its only dot. *)
Theorem synthetic_filename_shape (p : PhotoAsset) name :
  master_fields p !! "filenameEnc" = None ->
  filename p = Ok name ->
  let stem := Text.take 12 (Text.sub_non_alnum (id p)) in
  exists ext,
    name = stem ++ "." ++ ext
    /\ (String.length stem <= 12)%nat
    /\ Text.all_chars is_stem_char stem = true
    /\ Text.has_dot stem = false
    /\ (ext = "unknown" \/ In ext (map snd ITEM_TYPE_EXTENSIONS)).
Proof.
  intros Hn Hf stem. rewrite (filename_absent p Hn) in Hf.
  unfold synthetic_filename in Hf.
  destruct (item_type_extension p) as [ext|] eqn:He; [|discriminate].
  cbn in Hf. injection Hf as <-.
  assert (Hchars : Text.all_chars is_stem_char stem = true).
  { apply all_chars_take, sub_non_alnum_chars. }
  exists ext. split; [reflexivity|]. split; [apply length_take|].
  split; [exact Hchars|]. split; [exact (stem_chars_no_dot stem Hchars)|].
  exact (extension_values p ext He).
Qed.

Lemma synthetic_filename_shape_witness :
  exists ext,
    "AbC___123456.unknown"
    = Text.take 12 (Text.sub_non_alnum (id SampleMore.gif)) ++ "." ++ ext
    /\ (ext = "unknown" \/ In ext (map snd ITEM_TYPE_EXTENSIONS)).
Proof.
  destruct (synthetic_filename_shape SampleMore.gif "AbC___123456.unknown")
    as (ext & Hname & _ & _ & _ & Hext).
  - reflexivity.
  - vm_compute. reflexivity.
  - exists ext. split; assumption.
Defined.

Section BadName.

Lemma build_version_filename_raises p prefix e :
  filename p = Raise e -> build_version p prefix = Raise e.
Proof. intros Hf. unfold build_version. rewrite Hf. reflexivity. Qed.

(** With a filename that raises, the loop stops at the first version it
    includes, and has written nothing. *)
Lemma versions_fill_filename_raises p e table :
  filename p = Raise e ->
  (exists key prefix, In (key, prefix) table
     /\ has_field p (prefix ++ "Res") = true) ->
  forall acc, versions_fill p table acc = (acc, Some e).
Proof.
  intros Hf. induction table as [|[k pre] rest IH];
    intros (key & prefix & Hin & Hh) acc; [destruct Hin|].
  cbn [versions_fill].
  destruct (has_field p (pre ++ "Res")) eqn:Eh.
  - rewrite (build_version_filename_raises p pre e Hf). reflexivity.
  - apply IH. destruct Hin as [[= -> ->]|Hin]; [congruence|]. eauto.
Qed.

(** The decoder raises nothing but [binascii.Error], a [ValueError]. *)
Lemma a2b_base64_raises data : forall q pads e,
  Base64.a2b_base64 q pads data = Raise e -> e = ValueError.
Proof.
  induction data as [|c data IH]; intros q pads e; cbn [Base64.a2b_base64].
  - destruct q; [discriminate | | | ]; intros [= <-]; reflexivity.
  - destruct (Ascii.eqb c Base64.pad).
    + destruct (2 <=? Base64.quad_pos q)%nat; [|apply IH].
      destruct (4 <=? Base64.quad_pos q + S pads)%nat; [discriminate | apply IH].
    + destruct (Base64.sextet_of_char c) as [x|]; [|apply IH].
      destruct q as [|l|l|l]; [apply IH | | | ].
      * destruct (Base64.a2b_base64 (Base64.Q2 x) 0 data) eqn:E; cbn;
          [discriminate | intros [= <-]; exact (IH _ _ _ E)].
      * destruct (Base64.a2b_base64 (Base64.Q3 x) 0 data) eqn:E; cbn;
          [discriminate | intros [= <-]; exact (IH _ _ _ E)].
      * destruct (Base64.a2b_base64 Base64.Q0 0 data) eqn:E; cbn;
          [discriminate | intros [= <-]; exact (IH _ _ _ E)].
Qed.

(** A name field with text that is not base64, or not UTF-8 once decoded,
    makes [filename] raise: the made-up name is for a missing field only. *)
Lemma filename_undecodable p m s :
  master_fields p !! "filenameEnc" = Some (JObj m) ->
  m !! "value" = Some (JStr s) ->
  has_plain_extension s = false ->
  (forall text, Base64.b64decode s ≫= Text.decode_utf8 <> Ok text) ->
  filename p = Raise ValueError.
Proof.
  intros He Hv Hp Hd. rewrite (filename_named p m s He Hv), Hp.
  destruct (Base64.b64decode s) as [bytes|e] eqn:Eb; cbn.
  - unfold Text.decode_utf8.
    destruct (Text.utf8_valid bytes) eqn:Eu; [|reflexivity].
    exfalso. apply (Hd bytes). cbn. unfold Text.decode_utf8.
    rewrite Eu. reflexivity.
  - revert Eb. unfold Base64.b64decode.
    destruct (Text.is_ascii s); [|intros [= <-]; reflexivity].
    intros E. rewrite (a2b_base64_raises _ _ _ _ E). reflexivity.
Qed.

End BadName.

(** X12: a name that cannot be decoded is not replaced by the made-up name:
    [filename] raises, and then, as soon as one rendition is present,
    [versions] raises the same exception at every access, with nothing
    stored, and [download] raises it for every version name without sending
    a request. *)
Theorem undecodable_name_blocks_versions (p : PhotoAsset) e kind key prefix :
  versions_unset p = true ->
  filename p = Raise e ->
  item_type p = Ok kind ->
  In (key, prefix) (typed_version_lookup kind) ->
  has_field p (prefix ++ "Res") = true ->
  let p1 := set_versions p ∅ in
  versions p = (p1, Raise e)
  /\ versions p1 = (p1, Raise e)
  /\ forall version_name, download p version_name = (p1, [], Raise e).
Proof.
  intros Hu Hf Hk Hin Hh p1.
  assert (Hc : forall q, _master_record q = _master_record p ->
            versions_compute q = (set_versions q ∅, Raise e)).
  { intros q Hm. unfold versions_compute.
    rewrite (item_type_master q p Hm), Hk.
    fold (typed_version_lookup kind).
    rewrite (versions_fill_master q p Hm).
    rewrite (versions_fill_filename_raises p e _ Hf); [reflexivity|]. eauto. }
  assert (Hv : versions p = (p1, Raise e)).
  { rewrite (versions_first p Hu). exact (Hc p eq_refl). }
  split; [exact Hv|]. split.
  - rewrite (versions_first p1); [exact (Hc p1 eq_refl) | reflexivity].
  - intros version_name. unfold download. rewrite Hv. reflexivity.
Qed.

Lemma undecodable_name_blocks_versions_witness :
  let p := SampleMore.misnamed in
  filename p = Raise ValueError
  /\ versions p = (set_versions p ∅, Raise ValueError)
  /\ download p "original" = (set_versions p ∅, [], Raise ValueError).
Proof.
  intros p.
  assert (Hf : filename p = Raise ValueError).
  { apply (filename_undecodable p {[ "value" := JStr "A" ]} "A");
      [reflexivity | reflexivity | reflexivity |].
    intros text. vm_compute. discriminate. }
  destruct (undecodable_name_blocks_versions p ValueError "image"
              "original" "resOriginal") as (Hv & _ & Hd).
  - reflexivity.
  - exact Hf.
  - vm_compute. reflexivity.
  - left. reflexivity.
  - vm_compute. reflexivity.
  - split; [exact Hf|]. split; [exact Hv | exact (Hd "original")].
Defined.

Section Pages.

Lemma final_offset_total a pages :
  forall offset,
  final_offset a offset pages
  = if descending a then (offset - masters_total pages)%Z
    else (offset + masters_total pages)%Z.
Proof.
  unfold final_offset, masters_total.
  induction pages as [|records pages IH]; intros offset;
    cbn [fold_left map concat].
  - cbn. destruct (descending a); lia.
  - rewrite IH, length_app, Nat2Z.inj_add. unfold advance.
    destruct (descending a); lia.
Qed.

End Pages.

(** X13: the asset record of an entity is the last record of the page that
    refers to its master, wherever it stands in the page, before or after
    the master record: in a page whose asset records have a readable
    masterRef and whose masters are all referred to, the generator yields
    one entity per master record, each with that last asset record, and
    goes on to the next request. *)
Theorem page_last_asset_wins (a : PhotoAlbum) offset retries records net :
  Forall readable_ref records ->
  masters_of records <> [] ->
  (forall m, In m (masters_of records) ->
     last_asset (recordName m) records <> None) ->
  exists ps,
    map _master_record ps = masters_of records
    /\ Forall (fun p => last_asset (recordName (_master_record p)) records
                        = Some (_asset_record p)) ps
    /\ photos_loop a offset retries (Response (Some records) :: net)
       = ((Request offset :: map Yield ps
            ++ fst (photos_loop a
                      (advance a offset (List.length (masters_of records))) 0 net))%list,
          snd (photos_loop a
                 (advance a offset (List.length (masters_of records))) 0 net)).
Proof.
  intros Hread Hne Hall.
  destruct (split_records_readable records Hread ∅ []) as [assets Hsplit].
  cbn [app] in Hsplit.
  assert (Hlast : forall k, assets !! k = last_asset k records).
  { intros k. rewrite (split_records_last k _ _ _ _ _ Hsplit), lookup_empty.
    reflexivity. }
  destruct (photos_loop_page a offset retries records net assets
              (masters_of records) Hsplit Hne) as (ps & Hmap & Hps & Hloop).
  { intros m Hin. rewrite Hlast. apply Hall. exact Hin. }
  exists ps. split; [exact Hmap|]. split; [|exact Hloop].
  eapply Forall_impl; [exact Hps|]. intros p [Hp _].
  rewrite <- Hlast. exact Hp.
Qed.

Lemma page_last_asset_wins_witness :
  last_asset "m0" SamplePages.superseded = Some (Sample.asset "a1" "m0")
  /\ exists ps,
       map _master_record ps = masters_of SamplePages.superseded
       /\ Forall (fun p => last_asset (recordName (_master_record p))
                             SamplePages.superseded
                           = Some (_asset_record p)) ps
       /\ photos_loop (Scenario.album "ASCENDING") 0 0
            [Response (Some SamplePages.superseded)]
          = ((Request 0 :: map Yield ps ++ [])%list, Pending 1 0).
Proof.
  split; [vm_compute; reflexivity|].
  apply (page_last_asset_wins (Scenario.album "ASCENDING") 0 0
           SamplePages.superseded []).
  - repeat constructor; intros Ha; try discriminate Ha;
      eexists; vm_compute; reflexivity.
  - vm_compute. discriminate.
  - intros m Hin. vm_compute in Hin.
    destruct Hin as [<-|[]]. vm_compute. discriminate.
Defined.

(** X14: a whole iteration over pages that all reconcile, closed by an empty
    page: one request per page and one for the empty page, each at the
    offset the master counts before it add up to (subtracted for
    DESCENDING, with no stop at zero); the masters of the entities are the
    master records of the pages, in order; the sequence is exhausted; and the
    last request is at the first offset moved by the number of all
    masters. *)
Theorem photos_run_offsets (a : PhotoAlbum) pages offset retries :
  Forall reconciled pages ->
  Scenario.requests
    (fst (photos_loop a offset retries
            (map page_reply pages ++ [Response (Some [])])))
  = (page_offsets a offset pages ++ [final_offset a offset pages])%list
  /\ map _master_record
       (Scenario.yields
          (fst (photos_loop a offset retries
                  (map page_reply pages ++ [Response (Some [])]))))
     = concat (map masters_of pages)
  /\ snd (photos_loop a offset retries
            (map page_reply pages ++ [Response (Some [])]))
     = Exhausted
  /\ final_offset a offset pages
     = if descending a then (offset - masters_total pages)%Z
       else (offset + masters_total pages)%Z.
Proof.
  intros Hpages. split; [|split; [|split]]; [ | | |apply final_offset_total].
  - destruct pages as [|records pages]; [reflexivity|].
    destruct (photos_loop_pages a (records :: pages) Hpages offset retries
                [Response (Some [])]) as (Hr & _ & _); [discriminate|].
    exact Hr.
  - destruct pages as [|records pages]; [reflexivity|].
    destruct (photos_loop_pages a (records :: pages) Hpages offset retries
                [Response (Some [])]) as (_ & Hy & _); [discriminate|].
    rewrite Hy. cbn [photos_loop split_records List.length Nat.eqb fst
                     Scenario.yields map].
    apply app_nil_r.
  - destruct pages as [|records pages]; [reflexivity|].
    destruct (photos_loop_pages a (records :: pages) Hpages offset retries
                [Response (Some [])]) as (_ & _ & He); [discriminate|].
    exact He.
Qed.

Lemma photos_run_offsets_witness :
  Scenario.requests
    (fst (photos_loop (Scenario.album "DESCENDING") 1 0
            (map page_reply SamplePages.two_pages ++ [Response (Some [])])))
  = [1; -1; -2]%Z
  /\ snd (photos_loop (Scenario.album "DESCENDING") 1 0
            (map page_reply SamplePages.two_pages ++ [Response (Some [])]))
     = Exhausted.
Proof.
  destruct (photos_run_offsets (Scenario.album "DESCENDING")
              SamplePages.two_pages 1 0) as (Hr & _ & He & _).
  - assert (Hrec : forall records,
              In records SamplePages.two_pages -> reconciled records).
    { intros records Hin.
      exists (fst (SamplePages.split records)), (snd (SamplePages.split records)).
      destruct Hin as [<-|[<-|[]]];
        (split; [vm_compute; reflexivity|]; split; [vm_compute; discriminate|];
         intros m Hin; vm_compute in Hin;
         repeat (destruct Hin as [<-|Hin]; [vm_compute; discriminate|]);
         destruct Hin). }
    apply List.Forall_forall. exact Hrec.
  - split; [|exact He]. rewrite Hr. vm_compute. reflexivity.
Defined.

Section Count.

Lemma set_len_same a : set_len a (_len a) = a.
Proof. destruct a. reflexivity. Qed.

(** A count that is stored is what [__len__] returns, whatever the reply. *)
Lemma len_stored sys_maxsize a r :
  _len a <> JNull ->
  len sys_maxsize a r = (a, checked_len sys_maxsize (_len a)).
Proof.
  intros H. unfold len, __len__.
  destruct (_len a); [contradiction | reflexivity ..].
Qed.

Lemma len_first sys_maxsize a v :
  _len a = JNull ->
  len sys_maxsize a (Ok v) = (set_len a v, checked_len sys_maxsize v).
Proof. intros H. unfold len, __len__. rewrite H. reflexivity. Qed.

End Count.

(** X15: the count of an album is asked for once: the value the first count
    reply carries, unless it is null, is stored, also one that [len]
    rejects (a negative number, a number above [sys.maxsize], a value that
    is no integer), and every later [len] gives the same result or raises the
    same exception without a look at a new reply; a DESCENDING iteration
    therefore starts from the stored count, whatever the album holds by
    then. A count query that raises stores nothing, and neither does a null
    count, for which [len] raises [TypeError]: the next [len] asks again. *)
Theorem len_counted_once (sys_maxsize : Z) (a : PhotoAlbum) (v : json) :
  v <> JNull ->
  (forall r,
     len sys_maxsize (fst (len sys_maxsize a (Ok v))) r
     = len sys_maxsize a (Ok v))
  /\ (forall r r' net,
        photos sys_maxsize (fst (len sys_maxsize a (Ok v))) r net
        = photos sys_maxsize (fst (len sys_maxsize a (Ok v))) r' net)
  /\ (forall e, _len a = JNull ->
        len sys_maxsize a (Raise e) = (a, Raise e))
  /\ (_len a = JNull ->
      len sys_maxsize a (Ok JNull) = (a, Raise TypeError)
      /\ forall r, len sys_maxsize (fst (len sys_maxsize a (Ok JNull))) r
                   = len sys_maxsize a r).
Proof.
  intros Hv.
  assert (Hlen : forall r,
            len sys_maxsize (fst (len sys_maxsize a (Ok v))) r
            = len sys_maxsize a (Ok v)).
  { intros r.
    assert (Hcase : _len a = JNull \/ _len a <> JNull)
      by (destruct (_len a); (left; reflexivity) || (right; discriminate)).
    destruct Hcase as [E|E].
    - rewrite (len_first sys_maxsize a v E). cbn [fst].
      rewrite (len_stored sys_maxsize (set_len a v) r); [reflexivity|].
      exact Hv.
    - rewrite (len_stored sys_maxsize a (Ok v) E). cbn [fst].
      apply len_stored. exact E. }
  split; [exact Hlen|]. split; [|split].
  - intros r r' net. unfold photos.
    destruct (descending _); [|reflexivity].
    rewrite (Hlen r), (Hlen r'). reflexivity.
  - intros e E. unfold len, __len__. rewrite E. reflexivity.
  - intros E.
    assert (Hnull : len sys_maxsize a (Ok JNull) = (a, Raise TypeError)).
    { assert (Hsame : set_len a JNull = a)
        by (rewrite <- E; apply set_len_same).
      rewrite (len_first sys_maxsize a JNull E), Hsame. reflexivity. }
    split; [exact Hnull|]. intros r. rewrite Hnull. reflexivity.
Qed.

Lemma len_counted_once_witness :
  let a := Scenario.album "DESCENDING" in
  let big := JNum (Scenario.sys_maxsize + 1) in
  len Scenario.sys_maxsize a (Ok big) = (set_len a big, Raise OverflowError)
  /\ len Scenario.sys_maxsize (set_len a big) (Ok (JNum 5))
     = (set_len a big, Raise OverflowError)
  /\ len Scenario.sys_maxsize a (Ok JNull) = (a, Raise TypeError)
  /\ len Scenario.sys_maxsize a (Raise (SessionError 503))
     = (a, Raise (SessionError 503)).
Proof.
  intros a big.
  destruct (len_counted_once Scenario.sys_maxsize a big)
    as (Hlen & _ & Hraise & Hnull); [discriminate|].
  split; [reflexivity|]. split; [exact (Hlen (Ok (JNum 5)))|]. split.
  - apply Hnull. reflexivity.
  - apply Hraise. reflexivity.
Defined.

Section DateFields.

Context {datetime : Type} (utc_of_millis : Z -> result datetime).

Lemma date_field_absent rec key :
  fields rec !! key = None ->
  date_field datetime utc_of_millis rec key = Raise (KeyError key).
Proof. intros E. unfold date_field, Py.item. rewrite E. reflexivity. Qed.

Lemma date_field_no_value rec key m :
  fields rec !! key = Some (JObj m) -> m !! "value" = None ->
  date_field datetime utc_of_millis rec key = Raise (KeyError "value").
Proof.
  intros E Ev. unfold date_field, Py.item. rewrite E. cbn. rewrite Ev.
  reflexivity.
Qed.

(** A [KeyError] of [date_field] comes from a lookup, or from the
    conversion. *)
Lemma date_field_key_error rec key k :
  (forall ms k', utc_of_millis ms <> Raise (KeyError k')) ->
  date_field datetime utc_of_millis rec key = Raise (KeyError k) ->
  fields rec !! key = None
  \/ exists m, fields rec !! key = Some (JObj m) /\ m !! "value" = None.
Proof.
  intros Hutc. unfold date_field, Py.item.
  destruct (fields rec !! key) as [entry|]; [|left; reflexivity].
  cbn. destruct entry as [| b | n | s | xs | m]; cbn; try discriminate.
  destruct (m !! "value") as [value|] eqn:Ev; [|right; eauto].
  cbn. destruct value as [| b | n | s | xs | m']; cbn; try discriminate;
    intros H; exfalso; exact (Hutc _ _ H).
Qed.

End DateFields.

(** X16: the asset date of an entity whose asset record has no "assetDate"
    field, or one without a "value", is the time zero, and that is the only
    case in which the field is not what decides; [asset_date] raises no
    [KeyError] as long as the conversion of the number raises none; any
    other failure (a value that is no number, a conversion out of range) is
    raised. [added_date] has no such fallback: without the
    "addedDate" field it raises the [KeyError]. *)
Theorem asset_date_fallback (datetime : Type)
    (utc_of_millis : Z -> result datetime) (p : PhotoAsset) :
  (forall ms k, utc_of_millis ms <> Raise (KeyError k)) ->
  (forall k, asset_date datetime utc_of_millis p <> Raise (KeyError k))
  /\ (asset_date datetime utc_of_millis p
      = date_field datetime utc_of_millis (_asset_record p) "assetDate"
      \/ (asset_date datetime utc_of_millis p = utc_of_millis 0%Z
          /\ (fields (_asset_record p) !! "assetDate" = None
              \/ exists m,
                   fields (_asset_record p) !! "assetDate" = Some (JObj m)
                   /\ m !! "value" = None)))
  /\ (fields (_asset_record p) !! "assetDate" = None ->
      asset_date datetime utc_of_millis p = utc_of_millis 0%Z)
  /\ (forall m, fields (_asset_record p) !! "assetDate" = Some (JObj m) ->
        m !! "value" = None ->
        asset_date datetime utc_of_millis p = utc_of_millis 0%Z)
  /\ (forall e, (forall k, e <> KeyError k) ->
        date_field datetime utc_of_millis (_asset_record p) "assetDate" = Raise e ->
        asset_date datetime utc_of_millis p = Raise e)
  /\ (fields (_asset_record p) !! "addedDate" = None ->
      added_date datetime utc_of_millis p = Raise (KeyError "addedDate")).
Proof.
  intros Hutc. split; [|split; [|split; [|split; [|split]]]].
  - intros k. unfold asset_date.
    destruct (date_field _ _ _ _) as [t|e]; [discriminate|].
    destruct e; try discriminate. apply Hutc.
  - unfold asset_date.
    destruct (date_field _ _ _ _) as [t|e] eqn:E; [left; reflexivity|].
    destruct e; try (left; reflexivity).
    right. split; [reflexivity|].
    exact (date_field_key_error utc_of_millis _ _ _ Hutc E).
  - intros E. unfold asset_date.
    rewrite (date_field_absent utc_of_millis _ _ E). reflexivity.
  - intros m E Ev. unfold asset_date.
    rewrite (date_field_no_value utc_of_millis _ _ m E Ev). reflexivity.
  - intros e He E. unfold asset_date. rewrite E.
    destruct e; try reflexivity. exfalso. exact (He _ eq_refl).
  - intros E. unfold added_date.
    exact (date_field_absent utc_of_millis _ _ E).
Qed.

Lemma asset_date_fallback_witness :
  asset_date Z Ok (Sample.unnamed "M1") = Ok 0%Z
  /\ added_date Z Ok (Sample.unnamed "M1") = Raise (KeyError "addedDate").
Proof.
  destruct (asset_date_fallback Z Ok (Sample.unnamed "M1"))
    as (_ & _ & Hzero & _ & _ & Hadded).
  - intros ms k. discriminate.
  - split; [apply Hzero | apply Hadded]; vm_compute; reflexivity.
Defined.
